(** * Learning-rate schedulers of [mxnet/lr_scheduler.py]

    A shallow embedding of the three schedulers ([FactorScheduler],
    [MultiFactorScheduler], [PolyScheduler]) and of their base class.

    Python values are modelled as follows:
    - [int] is [Z] (unbounded);
    - [float] is the primitive binary64 type [float] of Rocq, whose
      operations are specified by [SpecFloat] (IEEE 754, round to nearest
      even), which is what CPython's [float] is;
    - an object is a record, a method takes the record and returns the
      updated record next to its result;
    - an exception is a constructor of [exn], a computation that may raise
      returns a [result]. *)

From Stdlib Require Import ZArith List Bool String Floats Lia.
Import ListNotations.

Set Warnings "-inexact-float".

Local Open Scope Z_scope.

(** ** Exceptions *)

Inductive exn : Type :=
| ValueError (msg : string)
| AssertionError
| ZeroDivisionError
| OverflowError
| IndexError
| NotImplementedError (msg : string).

Inductive result (A : Type) : Type :=
| Ok (a : A)
| Raise (e : exn).

Arguments Ok {A} a.
Arguments Raise {A} e.

Definition bind {A B : Type} (c : result A) (k : A -> result B) : result B :=
  match c with
  | Ok a => k a
  | Raise e => Raise e
  end.

Notation "x <- c ;; k" := (bind c (fun x => k))
  (at level 61, c at next level, right associativity).

Definition is_raise {A : Type} (c : result A) : bool :=
  match c with
  | Ok _ => false
  | Raise _ => true
  end.

(** ** Python arithmetic used by the schedulers *)

(** [float(n)] for an [int] [n], and the implicit conversion of an [int]
    operand of a [float] operation: the nearest binary64 value, ties to
    even, and [OverflowError] when that is not finite. *)
Definition float_of_int (n : Z) : result float :=
  let x := SF2Prim (binary_normalize prec emax n 0 false) in
  if is_infinity x then Raise OverflowError else Ok x.

(** [x / y] on floats: Python raises instead of returning an infinity or a
    NaN when the divisor is zero. *)
Definition float_truediv (x y : float) : result float :=
  if PrimFloat.eqb y 0%float then Raise ZeroDivisionError else Ok (x / y)%float.

(** [l[i]] on a list, negative indices counting from the end. *)
Definition list_getitem (l : list Z) (i : Z) : result Z :=
  let n := Z.of_nat (List.length l) in
  let j := if i <? 0 then i + n else i in
  if (0 <=? j) && (j <? n) then Ok (nth (Z.to_nat j) l 0) else Raise IndexError.

(** ** The base class *)

(** What every scheduler offers: [__call__], from the number of updates to
    the learning rate, possibly changing the scheduler. *)
Class LRScheduler (S : Type) : Type := {
  lr_call : S -> Z -> result float * S
}.

Module LRSchedulerBase.

Record t : Type := { base_lr : float }.

Definition init : t := {| base_lr := 0.01%float |}.

Definition call (s : t) (num_update : Z) : result float * t :=
  (Raise (NotImplementedError "must override this"), s).

End LRSchedulerBase.

#[export] Instance LRSchedulerBase_sched : LRScheduler LRSchedulerBase.t :=
  {| lr_call := LRSchedulerBase.call |}.

(** A scheduler called on the successive values of [num_update]: the results
    in order, and the scheduler as the last call left it. *)
Fixpoint run {S R : Type} (call : S -> Z -> R * S) (s : S) (ns : list Z)
  : list R * S :=
  match ns with
  | [] => ([], s)
  | n :: ns' =>
      let (r, s1) := call s n in
      let (rs, s2) := run call s1 ns' in
      (r :: rs, s2)
  end.

(** ** FactorScheduler *)

Module FactorScheduler.

Record t : Type := {
  base_lr : float;
  step : Z;
  factor : float;
  stop_factor_lr : float;
  count : Z
}.

Definition default_stop_factor_lr : float := 1e-8%float.

Definition init (step : Z) (factor stop_factor_lr : float) : result t :=
  if step <? 1 then
    Raise (ValueError "Schedule step must be greater or equal than 1 round")
  else if (1.0 <? factor)%float then
    Raise (ValueError "Factor must be no more than 1 to make lr reduce")
  else
    Ok {| base_lr := LRSchedulerBase.base_lr LRSchedulerBase.init;
          step := step;
          factor := factor;
          stop_factor_lr := stop_factor_lr;
          count := 0 |}.

Definition call (s : t) (num_update : Z) : float * t :=
  if count s + step s <? num_update then
    let count' := count s + step s in
    let lr := (base_lr s * factor s)%float in
    let lr' := if (lr <? stop_factor_lr s)%float then stop_factor_lr s else lr in
    (lr', {| base_lr := lr';
             step := step s;
             factor := factor s;
             stop_factor_lr := stop_factor_lr s;
             count := count' |})
  else
    (base_lr s, s).

End FactorScheduler.

#[export] Instance FactorScheduler_sched : LRScheduler FactorScheduler.t :=
  {| lr_call := fun s n => let (r, s') := FactorScheduler.call s n in (Ok r, s') |}.

(** ** MultiFactorScheduler *)

Module MultiFactorScheduler.

Record t : Type := {
  base_lr : float;
  step : list Z;
  cur_step_ind : Z;
  factor : float;
  count : Z
}.

(** The validation loop of the constructor, [prev] being [step[i-1]] (absent
    at [i = 0]). *)
Fixpoint check_steps (prev : option Z) (l : list Z) : result unit :=
  match l with
  | [] => Ok tt
  | s :: l' =>
      if match prev with Some p => s <=? p | None => false end then
        Raise (ValueError "Schedule step must be an increasing integer list")
      else if s <? 1 then
        Raise (ValueError "Schedule step must be greater or equal than 1 round")
      else check_steps (Some s) l'
  end.

Definition init (step : list Z) (factor : float) : result t :=
  if negb (1 <=? Z.of_nat (List.length step)) then Raise AssertionError
  else
    _ <- check_steps None step ;;
    if (1.0 <? factor)%float then
      Raise (ValueError "Factor must be no more than 1 to make lr reduce")
    else
      Ok {| base_lr := LRSchedulerBase.base_lr LRSchedulerBase.init;
            step := step;
            cur_step_ind := 0;
            factor := factor;
            count := 0 |}.

Definition call (s : t) (num_update : Z) : result float * t :=
  if cur_step_ind s <=? Z.of_nat (List.length (step s)) - 1 then
    match list_getitem (step s) (cur_step_ind s) with
    | Raise e => (Raise e, s)
    | Ok milestone =>
        if milestone <? num_update then
          let lr := (base_lr s * factor s)%float in
          (Ok lr, {| base_lr := lr;
                     step := step s;
                     cur_step_ind := cur_step_ind s + 1;
                     factor := factor s;
                     count := milestone |})
        else (Ok (base_lr s), s)
    end
  else (Ok (base_lr s), s).

End MultiFactorScheduler.

#[export] Instance MultiFactorScheduler_sched : LRScheduler MultiFactorScheduler.t :=
  {| lr_call := MultiFactorScheduler.call |}.

(** ** PolyScheduler *)

Module PolyScheduler.

Record t : Type := {
  base_lr : float;
  power : float;
  total_update : Z
}.

Definition init (total_update : Z) (power : float) : result t :=
  if ((1.0 <? power) || (power <? 0.0))%float then
    Raise (ValueError "Power must be no more than 1 and larger than 0.")
  else
    Ok {| base_lr := LRSchedulerBase.base_lr LRSchedulerBase.init;
          power := power;
          total_update := total_update |}.

Section WithPow.

(** [math.pow] is the C library's [pow] behind Python's error checks; it
    is not part of this module and is taken as a parameter. *)
Variable math_pow : float -> float -> result float.

Definition call (s : t) (num_update : Z) : result float * t :=
  (x <- float_of_int num_update ;;
   d <- float_of_int (total_update s) ;;
   q <- float_truediv x d ;;
   p <- math_pow (1 - q)%float (power s) ;;
   Ok (base_lr s * p)%float,
   s).

End WithPow.

End PolyScheduler.

#[export] Instance PolyScheduler_sched (math_pow : float -> float -> result float)
  : LRScheduler PolyScheduler.t :=
  {| lr_call := PolyScheduler.call math_pow |}.

(** ** Vocabulary of the statements *)

(** [0, 1, ..., n]: [num_update] increasing one at a time from 0. *)
Definition updates_upto (n : nat) : list Z := map Z.of_nat (seq 0 (S n)).

(** The caller's contract stated by the base class: [num_update] is
    non-decreasing and increases at most by one, [prev] being the value of the
    previous call. *)
Fixpoint unit_paced (prev : Z) (ns : list Z) : Prop :=
  match ns with
  | [] => True
  | n :: ns' => prev <= n <= prev + 1 /\ unit_paced n ns'
  end.

(** Each rate is at most the one before it. *)
Fixpoint rates_non_increasing (rs : list float) : bool :=
  match rs with
  | r1 :: ((r2 :: _) as rs') => (r2 <=? r1)%float && rates_non_increasing rs'
  | _ => true
  end.

(** No rate is below the floor [L]. *)
Definition rates_at_least (L : float) (rs : list float) : bool :=
  forallb (fun r => (L <=? r)%float) rs.

(** A list of milestones in strictly increasing order. *)
Fixpoint strictly_increasing (l : list Z) : bool :=
  match l with
  | a :: ((b :: _) as l') => (a <? b) && strictly_increasing l'
  | _ => true
  end.

(** The rates the scheduler with milestones [5; 10] and factor [0.1] is
    expected to return at [num_update]. *)
Definition rate_5_10 (num_update : Z) : float :=
  if num_update <=? 5 then 0.01%float
  else if num_update <=? 10 then 0.001%float
  else 0.0001%float.

(** The clamp of [FactorScheduler]: [lr] raised to the floor when below it. *)
Definition clamp_to_floor (lr floor : float) : float :=
  if (lr <? floor)%float then floor else lr.

(** The scheduler [s] after the calls [ns]. *)
Definition after_calls {S : Type} `{LRScheduler S} (s : S) (ns : list Z) : S :=
  snd (run lr_call s ns).

(** Two calls in a row with [num_update] return the same thing. *)
Definition repeat_stable {S : Type} `{LRScheduler S} (s : S) (num_update : Z) : Prop :=
  fst (lr_call (snd (lr_call s num_update)) num_update) = fst (lr_call s num_update).

(** The invalid configurations of [MultiFactorScheduler] by the list: milestones
    not strictly increasing, a milestone below 1, a factor above 1. *)
Definition multi_listed_invalid (steps : list Z) (factor : float) : bool :=
  negb (strictly_increasing steps) || existsb (fun m => m <? 1) steps
  || (1 <? factor)%float.

(** The cursor lies within the list, its end included. *)
Definition cursor_in_range (s : MultiFactorScheduler.t) : Prop :=
  0 <= MultiFactorScheduler.cur_step_ind s
    <= Z.of_nat (List.length (MultiFactorScheduler.step s)).

(** The scheduler with milestones [5; 10] and factor [0.1] once [k] of its
    milestones are consumed. *)
Definition multi_5_10_after (k : Z) (lr : float) (cnt : Z) : MultiFactorScheduler.t :=
  {| MultiFactorScheduler.base_lr := lr;
     MultiFactorScheduler.step := [5; 10];
     MultiFactorScheduler.cur_step_ind := k;
     MultiFactorScheduler.factor := 0.1%float;
     MultiFactorScheduler.count := cnt |}.

(** That scheduler after the calls with [num_update] = 0, 1, ..., [n]. *)
Definition multi_5_10_state (n : nat) : MultiFactorScheduler.t :=
  if (n <=? 5)%nat then multi_5_10_after 0 0.01%float 0
  else if (n <=? 10)%nat then multi_5_10_after 1 0.001%float 5
  else multi_5_10_after 2 0.0001%float 10.

(** [PolyScheduler(total_update=100, power=1.0)]. *)
Definition poly_100_linear : PolyScheduler.t :=
  {| PolyScheduler.base_lr := 0.01%float;
     PolyScheduler.power := 1%float;
     PolyScheduler.total_update := 100 |}.

(** [math.pow] on the arguments for which its result is fixed exactly:
    [pow(x, 0.0) = 1.0] and [pow(1.0, y) = 1.0] (Python's documentation),
    [pow(x, 1.0) = x], and [pow(+0, y) = +0] for [y > 0] (C99, F.9.4.4).
    Elsewhere it stands for no value. It shows that what the theorems assume
    of [math.pow] can be met, and instantiates them. *)
Definition math_pow_exact (x y : float) : result float :=
  if (y =? 0)%float then Ok 1%float
  else if PrimFloat.Leibniz.eqb x 1 then Ok 1%float
  else if PrimFloat.Leibniz.eqb y 1 then Ok x
  else if PrimFloat.Leibniz.eqb x 0 && (0 <? y)%float then Ok 0%float
  else Raise (ValueError "math domain error").

(** ** Vocabulary of binary64 rounding, after [SpecFloat] *)

(** The number of binary digits of a mantissa. *)
Definition dig (m : positive) : Z := Zpos (digits2_pos m).

(** The mantissa and exponent once a mantissa that reached [2 ^ 53] is shifted
    back into 53 bits. *)
Definition renorm (m1 e1 : Z) : Z * Z :=
  if m1 <? 2 ^ 53 then (m1, e1) else (2 ^ 52, e1 + 1).

(** The float made of a sign, a mantissa and an exponent. *)
Definition pack (s : bool) (me : Z * Z) : spec_float :=
  match fst me with
  | Z0 => S754_zero s
  | Zpos p => if snd me <=? emax - prec then S754_finite s p (snd me) else S754_infinity s
  | Zneg _ => S754_nan
  end.

(** Zero, or finite and positive. *)
Definition finite_nonneg (x : spec_float) : bool :=
  match x with
  | S754_zero _ => true
  | S754_finite false _ _ => true
  | _ => false
  end.

(** Any float but NaN. *)
Definition not_nan (x : spec_float) : bool :=
  match x with
  | S754_nan => false
  | _ => true
  end.

(** ** Invariants of the schedulers *)

(** [FactorScheduler]: the latest [num_update] has not passed the next
    threshold. *)
Definition factor_paced_inv (s : FactorScheduler.t) (last : Z) : Prop :=
  1 <= FactorScheduler.step s /\
  last <= FactorScheduler.count s + FactorScheduler.step s.

(** [MultiFactorScheduler]: the milestones increase strictly and the latest
    [num_update] has not passed the next one. *)
Definition multi_paced_inv (s : MultiFactorScheduler.t) (last : Z) : Prop :=
  cursor_in_range s /\
  strictly_increasing (MultiFactorScheduler.step s) = true /\
  (MultiFactorScheduler.cur_step_ind s
     < Z.of_nat (List.length (MultiFactorScheduler.step s)) ->
   last <= nth (Z.to_nat (MultiFactorScheduler.cur_step_ind s))
             (MultiFactorScheduler.step s) 0).

(** The scheduler has factor [f] and floor [L], and its rate is zero or a
    positive finite number, not below the floor. *)
Definition factor_decay_inv (f L : float) (s : FactorScheduler.t) : Prop :=
  FactorScheduler.factor s = f /\
  FactorScheduler.stop_factor_lr s = L /\
  finite_nonneg (Prim2SF (FactorScheduler.base_lr s)) = true /\
  (L <=? FactorScheduler.base_lr s)%float = true.

(** ** Vocabulary of the schedules *)

(** One decay of [FactorScheduler]: the rate times the factor, raised to the
    floor when below it. *)
Definition factor_decay (f L b : float) : float := clamp_to_floor (b * f)%float L.

(** The decays that calls with [num_update] still apply to a
    [FactorScheduler] whose counter is [count]: one for each multiple of
    [step] below [num_update - count]. *)
Definition decays_due (step count num_update : Z) : Z :=
  Z.max 0 ((num_update - count - 1) / step).

(** The [FactorScheduler] [s] after [k] decays. *)
Definition factor_after_decays (s : FactorScheduler.t) (k : nat) : FactorScheduler.t :=
  {| FactorScheduler.base_lr :=
       Nat.iter k (factor_decay (FactorScheduler.factor s)
                     (FactorScheduler.stop_factor_lr s))
         (FactorScheduler.base_lr s);
     FactorScheduler.step := FactorScheduler.step s;
     FactorScheduler.factor := FactorScheduler.factor s;
     FactorScheduler.stop_factor_lr := FactorScheduler.stop_factor_lr s;
     FactorScheduler.count :=
       FactorScheduler.count s + FactorScheduler.step s * Z.of_nat k |}.

(** The number of milestones of [l] below [n]. *)
Definition count_below (n : Z) (l : list Z) : nat :=
  List.length (filter (fun m => m <? n) l).

(** The constructed [MultiFactorScheduler] once its first [k] milestones are
    consumed. *)
Definition multi_after (steps : list Z) (f : float) (k : nat) : MultiFactorScheduler.t :=
  {| MultiFactorScheduler.base_lr := Nat.iter k (fun b => (b * f)%float) 0.01%float;
     MultiFactorScheduler.step := steps;
     MultiFactorScheduler.cur_step_ind := Z.of_nat k;
     MultiFactorScheduler.factor := f;
     MultiFactorScheduler.count :=
       match k with
       | O => 0
       | S k' => nth k' steps 0
       end |}.

(** Each number is the one before it or its successor, [k0] being before the
    first. *)
Fixpoint slow_chain (k0 : nat) (ks : list nat) : Prop :=
  match ks with
  | [] => True
  | k :: ks' => (k = k0 \/ k = S k0) /\ slow_chain k ks'
  end.

(** The rate of the [FactorScheduler] is zero or positive and finite, and
    equal to the floor [L] (as floats compare), its factor being [f]. *)
Definition factor_pinned_inv (f L : float) (s : FactorScheduler.t) : Prop :=
  FactorScheduler.factor s = f /\
  FactorScheduler.stop_factor_lr s = L /\
  finite_nonneg (Prim2SF (FactorScheduler.base_lr s)) = true /\
  (FactorScheduler.base_lr s =? L)%float = true.

(** ** Vocabulary of the sign of a decayed rate *)





(** * Properties *)

(** ** Running a scheduler *)

Lemma run_app {S R : Type} (call : S -> Z -> R * S) (s : S) (l1 l2 : list Z) :
  run call s (l1 ++ l2) =
  (fst (run call s l1) ++ fst (run call (snd (run call s l1)) l2),
   snd (run call (snd (run call s l1)) l2)).
Proof.
  revert s. induction l1 as [|n l1 IH]; intros s; simpl.
  - now destruct (run call s l2).
  - destruct (call s n) as [r s1]. rewrite IH.
    destruct (run call s1 l1) as [rs s2]. reflexivity.
Qed.

Lemma updates_upto_S (n : nat) :
  updates_upto (S n) = updates_upto n ++ [Z.of_nat (S n)].
Proof.
  unfold updates_upto. rewrite (seq_S (S n) 0), map_app. reflexivity.
Qed.

(** ** Binary64 arithmetic *)

(** *** Digits of a mantissa *)

Lemma fexp_eq (e : Z) : fexp prec emax e = Z.max (e - 53) (-1074).
Proof. reflexivity. Qed.

Lemma dig_pos (m : positive) : 1 <= dig m.
Proof. unfold dig. lia. Qed.

Lemma dig_bounds (m : positive) : 2 ^ (dig m - 1) <= Zpos m < 2 ^ dig m.
Proof.
  unfold dig. induction m as [m IH|m IH|]; cbn [digits2_pos].
  - rewrite Pos2Z.inj_succ, (Pos2Z.inj_xI m).
    replace (Z.succ (Zpos (digits2_pos m)) - 1) with (Z.succ (Zpos (digits2_pos m) - 1)) by lia.
    rewrite !Z.pow_succ_r by lia. lia.
  - rewrite Pos2Z.inj_succ, (Pos2Z.inj_xO m).
    replace (Z.succ (Zpos (digits2_pos m)) - 1) with (Z.succ (Zpos (digits2_pos m) - 1)) by lia.
    rewrite !Z.pow_succ_r by lia. lia.
  - cbn. lia.
Qed.

Lemma dig_le (m : positive) (k : Z) : Zpos m < 2 ^ k -> dig m <= k.
Proof.
  intros H. pose proof (dig_bounds m) as [Hl _]. pose proof (dig_pos m).
  destruct (Z.le_gt_cases (dig m) k) as [|Hgt]; [assumption|exfalso].
  destruct (Z.le_gt_cases 0 k) as [Hk|Hk].
  - assert (2 ^ k <= 2 ^ (dig m - 1)) by (apply Z.pow_le_mono_r; lia). lia.
  - rewrite Z.pow_neg_r in H by lia. lia.
Qed.

Lemma dig_ge (m : positive) (k : Z) : 2 ^ (k - 1) <= Zpos m -> k <= dig m.
Proof.
  intros H. pose proof (dig_bounds m) as [_ Hu]. pose proof (dig_pos m).
  destruct (Z.le_gt_cases k (dig m)) as [|Hgt]; [assumption|exfalso].
  assert (2 ^ dig m <= 2 ^ (k - 1)) by (apply Z.pow_le_mono_r; lia). lia.
Qed.

Lemma dig_exact (m : positive) (k : Z) :
  2 ^ (k - 1) <= Zpos m < 2 ^ k -> dig m = k.
Proof.
  intros [Hl Hu]. pose proof (dig_le m k Hu). pose proof (dig_ge m k Hl). lia.
Qed.

Lemma dig_shift (p d : positive) : dig (Pos.iter xO p d) = dig p + Zpos d.
Proof.
  unfold dig. induction d as [|d IH] using Pos.peano_ind.
  - cbn [Pos.iter digits2_pos]. lia.
  - rewrite Pos.iter_succ. cbn [digits2_pos]. rewrite Pos2Z.inj_succ in *. lia.
Qed.

(** *** Shifting a mantissa right *)

Lemma shr_1_m (mrs : shr_record) :
  0 <= shr_m mrs -> shr_m (shr_1 mrs) = shr_m mrs / 2.
Proof.
  destruct mrs as [m r s]. cbn [shr_m]. intros Hm.
  destruct m as [|p|p]; [reflexivity| |lia].
  destruct p as [p|p|]; cbn [shr_1 shr_m].
  - rewrite (Pos2Z.inj_xI p). apply Z.div_unique with (r := 1); lia.
  - rewrite (Pos2Z.inj_xO p). apply Z.div_unique with (r := 0); lia.
  - reflexivity.
Qed.

Lemma pow2_xI (p : positive) : 2 ^ Zpos p~1 = 2 * 2 ^ Zpos p * 2 ^ Zpos p.
Proof.
  rewrite (Pos2Z.inj_xI p), Z.pow_add_r, Z.pow_twice_r by lia. change (2 ^ 1) with 2. ring.
Qed.

Lemma pow2_xO (p : positive) : 2 ^ Zpos p~0 = 2 ^ Zpos p * 2 ^ Zpos p.
Proof. rewrite (Pos2Z.inj_xO p). apply Z.pow_twice_r. Qed.

Lemma pow2_pos (k : Z) : 0 <= k -> 0 < 2 ^ k.
Proof. intros. apply Z.pow_pos_nonneg; lia. Qed.

Lemma iter_shr_m (p : positive) (mrs : shr_record) :
  0 <= shr_m mrs ->
  shr_m (iter_pos shr_1 p mrs) = shr_m mrs / 2 ^ Zpos p.
Proof.
  revert mrs.
  assert (Hnn : forall a k, 0 <= a -> 0 <= k -> 0 <= a / 2 ^ k)
    by (intros; apply Z.div_pos; [assumption|apply pow2_pos; assumption]).
  induction p as [p IH|p IH|]; intros mrs Hm; cbn [iter_pos].
  - pose proof (pow2_pos (Zpos p) ltac:(lia)) as Hp.
    assert (H1 : 0 <= shr_m (shr_1 mrs))
      by (rewrite shr_1_m by assumption; apply (Hnn _ 1); lia).
    assert (H2 : 0 <= shr_m (iter_pos shr_1 p (shr_1 mrs)))
      by (rewrite IH by assumption; apply Hnn; lia).
    rewrite IH, IH, shr_1_m by assumption.
    rewrite !Z.div_div by lia. rewrite pow2_xI. f_equal. ring.
  - pose proof (pow2_pos (Zpos p) ltac:(lia)) as Hp.
    assert (H2 : 0 <= shr_m (iter_pos shr_1 p mrs))
      by (rewrite IH by assumption; apply Hnn; lia).
    rewrite IH, IH by assumption.
    rewrite Z.div_div by lia. now rewrite pow2_xO.
  - now rewrite shr_1_m.
Qed.

Lemma shr_1_double (q : Z) :
  0 <= q ->
  shr_1 (Build_shr_record (2 * q) false false) = Build_shr_record q false false.
Proof. intros Hq. destruct q as [|q|q]; [reflexivity|reflexivity|lia]. Qed.

Lemma iter_shr_exact (p : positive) (q : Z) :
  0 <= q ->
  iter_pos shr_1 p (Build_shr_record (q * 2 ^ Zpos p) false false)
  = Build_shr_record q false false.
Proof.
  revert q. induction p as [p IH|p IH|]; intros q Hq; cbn [iter_pos].
  - pose proof (pow2_pos (Zpos p) ltac:(lia)) as Hp.
    rewrite pow2_xI.
    replace (q * (2 * 2 ^ Zpos p * 2 ^ Zpos p)) with (2 * (q * 2 ^ Zpos p * 2 ^ Zpos p)) by ring.
    rewrite shr_1_double by nia. rewrite IH by nia. now apply IH.
  - pose proof (pow2_pos (Zpos p) ltac:(lia)) as Hp.
    rewrite pow2_xO, Z.mul_assoc. rewrite IH by nia. now apply IH.
  - change (2 ^ 1) with 2. rewrite Z.mul_comm. now apply shr_1_double.
Qed.

Lemma round_nearest_even_cases (m : Z) (l : location) :
  round_nearest_even m l = m \/
  (round_nearest_even m l = m + 1 /\ l <> loc_Exact).
Proof.
  destruct l as [|[| |]]; cbn [round_nearest_even]; try (left; reflexivity).
  - destruct (Z.even m); [left; reflexivity|right; split; [reflexivity|discriminate]].
  - right. split; [reflexivity|discriminate].
Qed.

(** *** The two shifts of [binary_round_aux] *)

Lemma Zdigits2_le_53 (m1 : Z) : 0 <= m1 < 2 ^ 53 -> Zdigits2 m1 <= 53.
Proof.
  intros [H0 H1]. destruct m1 as [|p|p]; [cbn; lia| |lia].
  apply (dig_le p 53 H1).
Qed.

Lemma second_shift (m1 e1 : Z) :
  -1074 <= e1 -> 0 <= m1 <= 2 ^ 53 ->
  shr_fexp prec emax m1 e1 loc_Exact =
  (Build_shr_record (fst (renorm m1 e1)) false false, snd (renorm m1 e1)).
Proof.
  intros He Hm. unfold shr_fexp, renorm. rewrite fexp_eq. cbn [shr_record_of_loc].
  destruct (Z.ltb_spec m1 (2 ^ 53)) as [Hlt|Hge]; cbn [fst snd].
  - pose proof (Zdigits2_le_53 m1 ltac:(lia)) as Hd.
    unfold shr. destruct (Z.max (Zdigits2 m1 + e1 - 53) (-1074) - e1) eqn:Hn;
      [reflexivity|lia|reflexivity].
  - replace m1 with (2 ^ 53) by lia.
    change (Zdigits2 (2 ^ 53)) with 54.
    replace (Z.max (54 + e1 - 53) (-1074) - e1) with 1 by lia.
    reflexivity.
Qed.

Lemma round_aux_cases (s : bool) (m : positive) (e : Z) :
  let e1 := Z.max (fexp prec emax (dig m + e)) e in
  let q := Zpos m / 2 ^ (e1 - e) in
  exists m1 : Z,
    (m1 = q \/ (m1 = q + 1 /\ Zpos m mod 2 ^ (e1 - e) <> 0)) /\
    q < 2 ^ 53 /\
    binary_round_aux prec emax s (Zpos m) e loc_Exact = pack s (renorm m1 e1).
Proof.
  intros e1 q. subst e1 q. rewrite fexp_eq.
  pose proof (dig_bounds m) as [Hdl Hdu]. pose proof (dig_pos m) as Hd1.
  unfold binary_round_aux. unfold shr_fexp at 1. rewrite fexp_eq.
  change (Zdigits2 (Zpos m)) with (dig m). cbn [shr_record_of_loc].
  unfold shr at 1.
  destruct (Z.max (dig m + e - 53) (-1074) - e) as [|p|p] eqn:Hn.
  1, 3:
    replace (Z.max (Z.max (dig m + e - 53) (-1074)) e) with e by lia;
    rewrite Z.sub_diag; change (2 ^ 0) with 1; rewrite Z.div_1_r;
    exists (Zpos m); cbn [shr_m loc_of_shr_record round_nearest_even];
    assert (Hm53 : Zpos m < 2 ^ 53)
      by (assert (2 ^ dig m <= 2 ^ 53) by (apply Z.pow_le_mono_r; lia); lia);
    (split; [left; reflexivity|]); (split; [assumption|]);
    rewrite second_shift by lia; reflexivity.
  replace (Z.max (Z.max (dig m + e - 53) (-1074)) e) with (e + Zpos p) by lia.
  replace (e + Zpos p - e) with (Zpos p) by lia.
  pose proof (pow2_pos (Zpos p) ltac:(lia)) as Hp.
  assert (Hq : Zpos m / 2 ^ Zpos p < 2 ^ 53).
  { apply Z.div_lt_upper_bound; [assumption|].
    rewrite <- Z.pow_add_r by lia.
    assert (2 ^ dig m <= 2 ^ (Zpos p + 53)) by (apply Z.pow_le_mono_r; lia). lia. }
  assert (Hq0 : 0 <= Zpos m / 2 ^ Zpos p) by (apply Z.div_pos; lia).
  set (mrs := iter_pos shr_1 p (Build_shr_record (Zpos m) false false)).
  assert (Hmrs : shr_m mrs = Zpos m / 2 ^ Zpos p)
    by (unfold mrs; rewrite iter_shr_m; cbn [shr_m]; [reflexivity|lia]).
  exists (round_nearest_even (shr_m mrs) (loc_of_shr_record mrs)).
  destruct (round_nearest_even_cases (shr_m mrs) (loc_of_shr_record mrs))
    as [Hr|[Hr Hl]]; rewrite Hr, Hmrs.
  - split; [left; reflexivity|]. split; [assumption|].
    rewrite second_shift by lia. reflexivity.
  - split.
    + right. split; [reflexivity|]. intros Hmod. apply Hl.
      unfold mrs.
      rewrite (Z.div_mod (Zpos m) (2 ^ Zpos p)) at 1 by lia.
      rewrite Hmod, Z.add_0_r, Z.mul_comm.
      now rewrite iter_shr_exact by assumption.
    + split; [assumption|]. rewrite second_shift by lia. reflexivity.
Qed.

(** *** Canonical mantissas *)

Lemma bounded_facts (m : positive) (e : Z) :
  bounded prec emax m e = true ->
  dig m <= 53 /\ -1074 <= e <= 971 /\ (dig m = 53 \/ e = -1074).
Proof.
  unfold bounded, canonical_mantissa. rewrite fexp_eq. fold (dig m).
  intros H. apply andb_prop in H as [H1 H2].
  apply Z.eqb_eq in H1. apply Z.leb_le in H2.
  change (emax - prec) with 971 in H2. lia.
Qed.

Lemma bounded_53 (m : positive) (e : Z) :
  dig m = 53 -> -1074 <= e <= 971 -> bounded prec emax m e = true.
Proof.
  intros Hd He. unfold bounded, canonical_mantissa. rewrite fexp_eq. fold (dig m).
  rewrite Hd. apply andb_true_intro. split.
  - apply Z.eqb_eq. lia.
  - apply Z.leb_le. change (emax - prec) with 971. lia.
Qed.

(** *** Comparisons *)

Lemma SFcompare_pos (m1 : positive) (e1 : Z) (m2 : positive) (e2 : Z) :
  SFcompare (S754_finite false m1 e1) (S754_finite false m2 e2) =
  Some match e1 ?= e2 with Lt => Lt | Gt => Gt | Eq => Pos.compare m1 m2 end.
Proof. reflexivity. Qed.

Lemma SFleb_pos_iff (m1 : positive) (e1 : Z) (m2 : positive) (e2 : Z) :
  SFleb (S754_finite false m1 e1) (S754_finite false m2 e2) = true <->
  e1 < e2 \/ (e1 = e2 /\ Zpos m1 <= Zpos m2).
Proof.
  unfold SFleb. rewrite SFcompare_pos.
  destruct (Z.compare_spec e1 e2) as [E|E|E].
  - destruct (Pos.compare_spec m1 m2) as [M|M|M]; split; intros H;
      try reflexivity; try discriminate H; try (right; split; [assumption|lia]);
      exfalso; lia.
  - split; [left; assumption|reflexivity].
  - split; [discriminate|lia].
Qed.

(** A positive float that is at most one. *)
Lemma le_one_facts (m : positive) (e : Z) :
  bounded prec emax m e = true ->
  SFleb (S754_finite false m e) (S754_finite false 4503599627370496 (-52)) = true ->
  e <= -52 /\ Zpos m <= 2 ^ (- e).
Proof.
  intros Hb Hle. apply bounded_facts in Hb as (Hd & He & _).
  pose proof (dig_bounds m) as [_ Hu].
  assert (H53 : 2 ^ dig m <= 2 ^ 53) by (apply Z.pow_le_mono_r; lia).
  apply SFleb_pos_iff in Hle. destruct Hle as [Hlt|[-> Hle]].
  - split; [lia|].
    assert (2 ^ 53 <= 2 ^ (- e)) by (apply Z.pow_le_mono_r; lia). lia.
  - split; [lia|]. exact Hle.
Qed.

Lemma finite_nonneg_not_nan (x : spec_float) : finite_nonneg x = true -> not_nan x = true.
Proof. now destruct x. Qed.

Lemma SFleb_not_nan (x y : spec_float) :
  SFleb x y = true -> not_nan x = true /\ not_nan y = true.
Proof. destruct x, y; try discriminate; now split. Qed.

Lemma SFcompare_antisym (x y : spec_float) :
  SFcompare y x = option_map CompOpp (SFcompare x y).
Proof.
  destruct x as [sx|sx| |sx mx ex], y as [sy|sy| |sy my ey];
    try destruct sx; try destruct sy; try reflexivity; cbn [SFcompare option_map];
    rewrite (Z.compare_antisym ex ey); destruct (ex ?= ey); cbn [CompOpp];
    try reflexivity;
    change (Pos.compare_cont Eq my mx) with (Pos.compare my mx);
    change (Pos.compare_cont Eq mx my) with (Pos.compare mx my);
    rewrite (Pos.compare_antisym mx my); now destruct (mx ?= my)%positive.
Qed.

Lemma SFleb_refl (x : spec_float) : not_nan x = true -> SFleb x x = true.
Proof.
  destruct x as [s|s| |s m e]; try destruct s; try reflexivity; try discriminate;
    intros _; unfold SFleb; cbn [SFcompare]; rewrite Z.compare_refl;
    change (Pos.compare_cont Eq m m) with (Pos.compare m m);
    now rewrite Pos.compare_refl.
Qed.

Lemma SFltb_false_leb (x y : spec_float) :
  not_nan x = true -> not_nan y = true -> SFltb x y = false -> SFleb y x = true.
Proof.
  intros Hx Hy. unfold SFltb, SFleb. rewrite (SFcompare_antisym x y).
  destruct (SFcompare x y) as [[| |]|] eqn:Hc; cbn [option_map CompOpp];
    try reflexivity; try discriminate.
  intros _. destruct x, y; try discriminate Hx; try discriminate Hy; discriminate Hc.
Qed.

(** A floor above a nonnegative finite product and below a nonnegative finite
    rate is itself nonnegative and finite. *)
Lemma SF_floor_between (r L b : spec_float) :
  finite_nonneg r = true -> finite_nonneg b = true ->
  SFltb r L = true -> SFleb L b = true ->
  finite_nonneg L = true.
Proof.
  destruct L as [sl|sl| |sl ml el]; try reflexivity;
    destruct r as [sr|sr| |sr mr er]; try discriminate;
    destruct b as [sb|sb| |sb mb eb]; try discriminate;
    try destruct sl; try destruct sr; try destruct sb; try discriminate; reflexivity.
Qed.

(** *** Multiplying by a factor between zero and one *)

Lemma SFmul_shrink (mb : positive) (eb : Z) (mf : positive) (ef : Z) :
  bounded prec emax mb eb = true ->
  ef <= -52 -> Zpos mf <= 2 ^ (- ef) ->
  SFmul prec emax (S754_finite false mb eb) (S754_finite false mf ef) = S754_zero false \/
  exists m e,
    SFmul prec emax (S754_finite false mb eb) (S754_finite false mf ef)
      = S754_finite false m e /\
    (e < eb \/ (e = eb /\ Zpos m <= Zpos mb)).
Proof.
  intros Hb Hef Hmf. apply bounded_facts in Hb as (Hdb & Heb & Hnorm).
  cbn [SFmul xorb].
  destruct (round_aux_cases false (mb * mf) (eb + ef)) as (m1 & Hm1 & Hq & ->).
  rewrite fexp_eq in Hm1, Hq |- *.
  set (k := - ef) in *. assert (Hk : 52 <= k) by (unfold k; lia).
  pose proof (pow2_pos k ltac:(lia)) as HP.
  pose proof (dig_bounds mb) as [Hbl Hbu]. pose proof (dig_pos mb) as Hdb1.
  assert (HM : Zpos (mb * mf) <= Zpos mb * 2 ^ k) by (rewrite Pos2Z.inj_mul; nia).
  assert (Hd : dig (mb * mf) <= dig mb + k).
  { apply dig_le. rewrite Z.pow_add_r by lia.
    apply Z.le_lt_trans with (Zpos mb * 2 ^ k); [exact HM|].
    now apply Z.mul_lt_mono_pos_r. }
  set (e1 := Z.max (Z.max (dig (mb * mf) + (eb + ef) - 53) (-1074)) (eb + ef)) in *.
  assert (He1 : -1074 <= e1 <= eb) by (unfold e1, k in *; lia).
  set (q := Zpos (mb * mf) / 2 ^ (e1 - (eb + ef))) in *.
  assert (Hq0 : 0 <= q) by (apply Z.div_pos; [lia|apply pow2_pos; lia]).
  (* when the exponent is that of [b], the quotient is at most its mantissa *)
  assert (Hsame : e1 = eb ->
                  q <= Zpos mb /\ (Zpos (mb * mf) mod 2 ^ (e1 - (eb + ef)) <> 0 -> q < Zpos mb)).
  { intros E. unfold q. replace (e1 - (eb + ef)) with k by (unfold k; lia).
    pose proof (Z.div_mod (Zpos (mb * mf)) (2 ^ k) ltac:(lia)) as Hdm.
    pose proof (Z.mod_pos_bound (Zpos (mb * mf)) (2 ^ k) HP) as Hmod.
    split; [|intros Hne]; nia. }
  assert (H52 : e1 + 1 = eb -> 2 ^ 52 <= Zpos mb).
  { intros E. assert (dig mb = 53) as Hd53 by lia. now rewrite Hd53 in Hbl. }
  unfold renorm. destruct (Z.ltb_spec m1 (2 ^ 53)) as [Hlt|Hge]; unfold pack; cbn [fst snd].
  - destruct m1 as [|p1|p1]; [left; reflexivity| |lia].
    right. exists p1, e1.
    replace (e1 <=? emax - prec) with true
      by (symmetry; apply Z.leb_le; change (emax - prec) with 971; lia).
    split; [reflexivity|].
    destruct (Z.eq_dec e1 eb) as [E|E]; [right|left; lia].
    split; [assumption|]. destruct (Hsame E) as [Hle Hlt']. lia.
  - assert (Hm1' : m1 = q + 1 /\ Zpos (mb * mf) mod 2 ^ (e1 - (eb + ef)) <> 0) by lia.
    destruct Hm1' as [-> Hne].
    assert (Hneq : e1 <> eb).
    { intros E. destruct (Hsame E) as [_ Hlt']. specialize (Hlt' Hne).
      assert (2 ^ dig mb <= 2 ^ 53) by (apply Z.pow_le_mono_r; lia). lia. }
    right. exists 4503599627370496%positive, (e1 + 1).
    change (2 ^ 52) with (Zpos 4503599627370496) in *. cbn match.
    replace (e1 + 1 <=? emax - prec) with true
      by (symmetry; apply Z.leb_le; change (emax - prec) with 971; lia).
    split; [reflexivity|].
    destruct (Z.eq_dec (e1 + 1) eb) as [E|E]; [right|left; lia].
    split; [assumption|]. now apply H52.
Qed.

Lemma SFmul_shrinks (b f : spec_float) :
  valid_binary b = true -> valid_binary f = true ->
  finite_nonneg b = true ->
  SFleb (S754_zero false) f = true ->
  SFleb f (S754_finite false 4503599627370496 (-52)) = true ->
  finite_nonneg (SFmul prec emax b f) = true /\ SFleb (SFmul prec emax b f) b = true.
Proof.
  intros Vb Vf Hb H0 H1.
  destruct b as [sb|sb| |sb mb eb]; try discriminate Hb;
    destruct f as [sf|sf| |sf mf ef]; try discriminate H0; try discriminate H1.
  - destruct sb, sf; split; reflexivity.
  - destruct sf; [discriminate H0|discriminate H1].
  - destruct sf; [discriminate H0|]. destruct sb; split; reflexivity.
  - destruct sb; [discriminate Hb|]. destruct sf; split; reflexivity.
  - destruct sf; [discriminate H0|discriminate H1].
  - destruct sb; [discriminate Hb|]. destruct sf; [discriminate H0|].
    cbn [valid_binary] in Vb, Vf.
    destruct (le_one_facts mf ef Vf H1) as [Hef Hmf].
    destruct (SFmul_shrink mb eb mf ef Vb Hef Hmf) as [->|(m & e & -> & Hle)].
    + split; reflexivity.
    + split; [reflexivity|]. now apply SFleb_pos_iff.
Qed.

(** *** Dividing a finite float by itself *)

Lemma div_eucl_div_mod (a b : Z) : Z.div_eucl a b = (a / b, a mod b).
Proof. unfold Z.div, Z.modulo. now destruct (Z.div_eucl a b). Qed.

Lemma SFdiv_core_self (m : positive) (e : Z) :
  SFdiv_core_binary prec emax (Zpos m) e (Zpos m) e = (2 ^ 53, -53, loc_Exact).
Proof.
  unfold SFdiv_core_binary. rewrite !Z.sub_diag.
  change (Z.min (fexp prec emax 0) 0) with (-53).
  change (0 - -53) with 53.
  rewrite div_eucl_div_mod, Z.shiftl_mul_pow2 by lia.
  rewrite (Z.mul_comm (Zpos m)), Z.div_mul, Z.mod_mul by lia.
  unfold new_location, new_location_even, new_location_odd.
  now destruct (Z.even (Zpos m)).
Qed.

Lemma SFdiv_self (s : bool) (m : positive) (e : Z) :
  SFdiv prec emax (S754_finite s m e) (S754_finite s m e)
  = S754_finite false 4503599627370496 (-52).
Proof.
  cbn [SFdiv]. rewrite SFdiv_core_self. now destruct s.
Qed.

(** *** Rounding a nonzero integer *)

(** Rounding a mantissa of at least 53 bits in the normal range gives a valid
    finite float or an infinity, never a zero. *)
Lemma round_aux_normal (s : bool) (m : positive) (e : Z) :
  53 <= dig m -> -1074 <= dig m + e - 53 ->
  valid_binary (binary_round_aux prec emax s (Zpos m) e loc_Exact) = true /\
  (binary_round_aux prec emax s (Zpos m) e loc_Exact = S754_infinity s \/
   exists m' e', binary_round_aux prec emax s (Zpos m) e loc_Exact = S754_finite s m' e').
Proof.
  intros Hd He.
  destruct (round_aux_cases s m e) as (m1 & Hm1 & Hq & ->).
  rewrite fexp_eq in Hm1, Hq |- *.
  replace (Z.max (Z.max (dig m + e - 53) (-1074)) e) with (dig m + e - 53) in * by lia.
  replace (dig m + e - 53 - e) with (dig m - 53) in * by lia.
  set (e1 := dig m + e - 53) in *.
  pose proof (pow2_pos (dig m - 53) ltac:(lia)) as HP.
  pose proof (dig_bounds m) as [Hl _].
  assert (Hq52 : 2 ^ 52 <= Zpos m / 2 ^ (dig m - 53)).
  { apply Z.div_le_lower_bound; [assumption|].
    rewrite Z.mul_comm, <- Z.pow_add_r by lia.
    now replace (52 + (dig m - 53)) with (dig m - 1) by lia. }
  set (q := Zpos m / 2 ^ (dig m - 53)) in *.
  unfold renorm. destruct (Z.ltb_spec m1 (2 ^ 53)) as [Hlt|Hge]; unfold pack; cbn [fst snd].
  - destruct m1 as [|p1|p1]; [lia| |lia].
    assert (Hd1 : dig p1 = 53) by (apply dig_exact; change (53 - 1) with 52; lia).
    destruct (Z.leb_spec e1 (emax - prec)) as [Hle|Hgt].
    + split; [|right; now exists p1, e1].
      cbn [valid_binary]. apply bounded_53; [assumption|].
      change (emax - prec) with 971 in Hle. lia.
    + split; [reflexivity|left; reflexivity].
  - change (2 ^ 52) with (Zpos 4503599627370496). cbv iota beta.
    destruct (Z.leb_spec (e1 + 1) (emax - prec)) as [Hle|Hgt].
    + split; [|right; now exists 4503599627370496%positive, (e1 + 1)].
      cbn [valid_binary]. apply bounded_53; [reflexivity|].
      change (emax - prec) with 971 in Hle. lia.
    + split; [reflexivity|left; reflexivity].
Qed.

Lemma binary_round_int (s : bool) (p : positive) :
  valid_binary (binary_round prec emax s p 0) = true /\
  (binary_round prec emax s p 0 = S754_infinity s \/
   exists m' e', binary_round prec emax s p 0 = S754_finite s m' e').
Proof.
  unfold binary_round, shl_align. rewrite fexp_eq. fold (dig p).
  pose proof (dig_pos p) as Hd.
  replace (Z.max (dig p + 0 - 53) (-1074) - 0) with (dig p - 53) by lia.
  destruct (dig p - 53) as [|d|d] eqn:Hs.
  - apply round_aux_normal; lia.
  - apply round_aux_normal; lia.
  - replace (Z.max (dig p + 0 - 53) (-1074)) with (dig p - 53) by lia.
    apply round_aux_normal; rewrite dig_shift; lia.
Qed.

(** *** The same facts on primitive floats *)

Lemma Prim2SF_zero : Prim2SF 0 = S754_zero false.
Proof. reflexivity. Qed.

Lemma Prim2SF_one : Prim2SF 1 = S754_finite false 4503599627370496 (-52).
Proof. reflexivity. Qed.


Lemma float_positive_nonzero (y : float) :
  (0 <? y)%float = true -> (y =? 0)%float = false.
Proof.
  rewrite ltb_spec, eqb_spec, Prim2SF_zero.
  destruct (Prim2SF y) as [s|s| |s m e]; try destruct s; cbn; congruence.
Qed.

Lemma float_mul_shrinks (b f : float) :
  finite_nonneg (Prim2SF b) = true ->
  (0 <=? f)%float = true -> (f <=? 1)%float = true ->
  finite_nonneg (Prim2SF (b * f)) = true /\ (b * f <=? b)%float = true.
Proof.
  rewrite !leb_spec, mul_spec, Prim2SF_zero, Prim2SF_one.
  apply SFmul_shrinks; apply Prim2SF_valid.
Qed.

Lemma float_leb_refl (x : float) :
  not_nan (Prim2SF x) = true -> (x <=? x)%float = true.
Proof. rewrite leb_spec. apply SFleb_refl. Qed.

Lemma float_ltb_false_leb (x y : float) :
  not_nan (Prim2SF x) = true -> not_nan (Prim2SF y) = true ->
  (x <? y)%float = false -> (y <=? x)%float = true.
Proof. rewrite ltb_spec, leb_spec. apply SFltb_false_leb. Qed.

Lemma float_leb_not_nan (x y : float) :
  (x <=? y)%float = true -> not_nan (Prim2SF x) = true /\ not_nan (Prim2SF y) = true.
Proof. rewrite leb_spec. apply SFleb_not_nan. Qed.

Lemma float_floor_between (r L b : float) :
  finite_nonneg (Prim2SF r) = true -> finite_nonneg (Prim2SF b) = true ->
  (r <? L)%float = true -> (L <=? b)%float = true ->
  finite_nonneg (Prim2SF L) = true.
Proof. rewrite ltb_spec, leb_spec. apply SF_floor_between. Qed.

Lemma float_div_self (d : float) (s : bool) (m : positive) (e : Z) :
  Prim2SF d = S754_finite s m e -> (d / d)%float = 1%float.
Proof.
  intros Hd. apply Prim2SF_inj. rewrite div_spec, Hd, Prim2SF_one. apply SFdiv_self.
Qed.

Lemma float_finite_nonzero (d : float) (s : bool) (m : positive) (e : Z) :
  Prim2SF d = S754_finite s m e -> (d =? 0)%float = false.
Proof.
  intros Hd. rewrite eqb_spec, Hd, Prim2SF_zero. now destruct s.
Qed.

Lemma float_of_int_finite (n : Z) (d : float) :
  n <> 0 -> float_of_int n = Ok d ->
  exists s m e, Prim2SF d = S754_finite s m e.
Proof.
  intros Hn. unfold float_of_int.
  assert (H : exists s p, binary_normalize prec emax n 0 false = binary_round prec emax s p 0)
    by (destruct n as [|p|p]; [congruence|now exists false, p|now exists true, p]).
  destruct H as (s & p & ->).
  destruct (binary_round_int s p) as [Hv [Hinf|(m' & e' & Hfin)]].
  - rewrite Hinf. now destruct s.
  - rewrite Hfin in Hv |- *.
    remember (SF2Prim (S754_finite s m' e')) as x eqn:Hx.
    destruct (is_infinity x); [discriminate|].
    intros [= <-]. exists s, m', e'. rewrite Hx. now apply Prim2SF_SF2Prim.
Qed.

(** ** Construction *)

Lemma check_steps_after (p : Z) (l : list Z) :
  is_raise (MultiFactorScheduler.check_steps (Some p) l) =
  negb (strictly_increasing (p :: l)) || existsb (fun m => m <? 1) l.
Proof.
  revert p. induction l as [|a l IH]; intros p; [reflexivity|].
  cbn [MultiFactorScheduler.check_steps strictly_increasing existsb].
  rewrite (Z.leb_antisym p a).
  destruct (p <? a); cbn [negb andb orb]; [|reflexivity].
  destruct (a <? 1); cbn [orb].
  - now rewrite orb_true_r.
  - apply IH.
Qed.

Lemma check_steps_first (l : list Z) :
  is_raise (MultiFactorScheduler.check_steps None l) =
  negb (strictly_increasing l) || existsb (fun m => m <? 1) l.
Proof.
  destruct l as [|a l]; [reflexivity|].
  cbn [MultiFactorScheduler.check_steps existsb].
  destruct (a <? 1); cbn [orb].
  - now rewrite orb_true_r.
  - apply check_steps_after.
Qed.

Lemma strictly_increasing_first_positive (l : list Z) :
  MultiFactorScheduler.check_steps None l = Ok tt ->
  strictly_increasing l = true /\ existsb (fun m => m <? 1) l = false.
Proof.
  intros Hc. pose proof (check_steps_first l) as H. rewrite Hc in H.
  cbn [is_raise] in H. symmetry in H. apply orb_false_elim in H as [H1 H2].
  split; [now apply negb_false_iff|assumption].
Qed.

Lemma factor_init_ok (step : Z) (factor stop_factor_lr : float) (s0 : FactorScheduler.t) :
  FactorScheduler.init step factor stop_factor_lr = Ok s0 ->
  s0 = {| FactorScheduler.base_lr := 0.01%float;
          FactorScheduler.step := step;
          FactorScheduler.factor := factor;
          FactorScheduler.stop_factor_lr := stop_factor_lr;
          FactorScheduler.count := 0 |} /\
  1 <= step /\ (1 <? factor)%float = false.
Proof.
  unfold FactorScheduler.init.
  destruct (Z.ltb_spec step 1); [discriminate|].
  destruct (1 <? factor)%float; [discriminate|].
  intros [= <-]. repeat split. assumption.
Qed.

Lemma multi_init_ok (steps : list Z) (factor : float) (s0 : MultiFactorScheduler.t) :
  MultiFactorScheduler.init steps factor = Ok s0 ->
  s0 = {| MultiFactorScheduler.base_lr := 0.01%float;
          MultiFactorScheduler.step := steps;
          MultiFactorScheduler.cur_step_ind := 0;
          MultiFactorScheduler.factor := factor;
          MultiFactorScheduler.count := 0 |} /\
  steps <> [] /\
  MultiFactorScheduler.check_steps None steps = Ok tt /\
  (1 <? factor)%float = false.
Proof.
  unfold MultiFactorScheduler.init.
  destruct steps as [|a l]; [discriminate|].
  replace (negb (1 <=? Z.of_nat (List.length (a :: l)))) with false
    by (symmetry; apply negb_false_iff, Z.leb_le; cbn [List.length]; lia).
  destruct (MultiFactorScheduler.check_steps None (a :: l)) as [[]|e];
    cbn [bind]; [|discriminate].
  destruct (1 <? factor)%float; [discriminate|].
  intros [= <-]. repeat split. discriminate.
Qed.

(** C8 (with the empty list added): construction raises exactly for
    [FactorScheduler] with [step < 1] or [factor > 1.0]; for
    [MultiFactorScheduler] with an empty milestone list, one that is not
    strictly increasing, one with an entry below 1, or [factor > 1.0]; for
    [PolyScheduler] with [power > 1.0] or [power < 0.0]. The three named
    constructions raise. *)
Theorem construction_fails_exactly_when_invalid :
  (forall step factor stop_factor_lr,
      is_raise (FactorScheduler.init step factor stop_factor_lr) =
      (step <? 1) || (1 <? factor)%float) /\
  (forall steps factor,
      is_raise (MultiFactorScheduler.init steps factor) =
      match steps with [] => true | _ :: _ => false end
      || multi_listed_invalid steps factor) /\
  (forall total_update power,
      is_raise (PolyScheduler.init total_update power) =
      ((1 <? power) || (power <? 0))%float) /\
  MultiFactorScheduler.init [5; 3] 1 =
    Raise (ValueError "Schedule step must be an increasing integer list") /\
  (forall factor stop_factor_lr,
      FactorScheduler.init 0 factor stop_factor_lr =
      Raise (ValueError "Schedule step must be greater or equal than 1 round")) /\
  PolyScheduler.init 100 1.5 =
    Raise (ValueError "Power must be no more than 1 and larger than 0.").
Proof.
  repeat split.
  - intros step factor stop_factor_lr. unfold FactorScheduler.init.
    destruct (step <? 1); [reflexivity|].
    now destruct (1 <? factor)%float.
  - intros steps factor. unfold MultiFactorScheduler.init, multi_listed_invalid.
    destruct steps as [|a l]; [reflexivity|].
    replace (negb (1 <=? Z.of_nat (List.length (a :: l)))) with false
      by (symmetry; apply negb_false_iff, Z.leb_le; cbn [List.length]; lia).
    rewrite <- check_steps_first. cbn [orb].
    destruct (MultiFactorScheduler.check_steps None (a :: l)) as [[]|e];
      cbn [bind is_raise orb]; [|reflexivity].
    now destruct (1 <? factor)%float.
  - intros total_update power. unfold PolyScheduler.init.
    now destruct ((1 <? power) || (power <? 0))%float.
Qed.

(** C8 fails as stated: the empty milestone list is strictly increasing, has no
    entry below 1, and the factor 1 is allowed, yet construction raises (the
    assertion on the length of the list). *)
Lemma multi_empty_list_rejected :
  multi_listed_invalid [] 1 = false /\
  MultiFactorScheduler.init [] 1 = Raise AssertionError.
Proof. split; reflexivity. Qed.


(** ** FactorScheduler *)

(** C5: one call of [FactorScheduler] decays exactly when
    [num_update > count + step]; then [count] grows by [step] once, however far
    [num_update] lies beyond, and [base_lr] becomes [base_lr * factor] raised
    to [stop_factor_lr] when below it; otherwise nothing changes. In both cases
    the call returns the resulting [base_lr]. *)
Theorem factor_call_single_decay (s : FactorScheduler.t) (num_update : Z) :
  let r := fst (FactorScheduler.call s num_update) in
  let s' := snd (FactorScheduler.call s num_update) in
  r = FactorScheduler.base_lr s' /\
  FactorScheduler.step s' = FactorScheduler.step s /\
  FactorScheduler.factor s' = FactorScheduler.factor s /\
  FactorScheduler.stop_factor_lr s' = FactorScheduler.stop_factor_lr s /\
  if FactorScheduler.count s + FactorScheduler.step s <? num_update then
    FactorScheduler.count s' = FactorScheduler.count s + FactorScheduler.step s /\
    FactorScheduler.base_lr s' =
      clamp_to_floor (FactorScheduler.base_lr s * FactorScheduler.factor s)%float
                     (FactorScheduler.stop_factor_lr s)
  else s' = s.
Proof.
  unfold FactorScheduler.call.
  destruct (FactorScheduler.count s + FactorScheduler.step s <? num_update);
    simpl; repeat split; reflexivity.
Qed.

(** C1 (as the code has it): [FactorScheduler(step=2, factor=0.5)] called with
    [num_update] = 0..6 returns the initial rate 0.01 at 0, 1, 2, half of it at
    3 and 4, and a quarter of it at 5 and 6: the second halving happens at the
    call with [num_update = 5], the first value above [count + step = 4]. *)
Theorem factor_step2_rates :
  exists s0,
    FactorScheduler.init 2 0.5 FactorScheduler.default_stop_factor_lr = Ok s0 /\
    fst (run FactorScheduler.call s0 [0; 1; 2; 3; 4; 5; 6]) =
    [0.01; 0.01; 0.01; 0.01 * 0.5; 0.01 * 0.5; 0.01 * 0.5 * 0.5; 0.01 * 0.5 * 0.5]%float /\
    (0.01 * 0.5 <? 0.01)%float = true /\
    (0.01 * 0.5 * 0.5 <? 0.01 * 0.5)%float = true.
Proof.
  eexists. split; [reflexivity|]. repeat split; reflexivity.
Qed.

(** C1 fails as stated: the rate does not stay unchanged from 3 up to 6; the call
    with [num_update = 5] already returns less than the call with 4, and the
    call with 6 changes nothing. *)
Lemma factor_step2_halves_at_5_not_6 :
  exists s0 rs,
    FactorScheduler.init 2 0.5 FactorScheduler.default_stop_factor_lr = Ok s0 /\
    fst (run FactorScheduler.call s0 [0; 1; 2; 3; 4; 5; 6]) = rs /\
    (nth 5 rs 0 <? nth 4 rs 0)%float = true /\
    nth 6 rs 0%float = nth 5 rs 0%float.
Proof.
  do 2 eexists. split; [reflexivity|]. split; [reflexivity|]. split; reflexivity.
Qed.

(** *** The rates never rise and never pass the floor *)

Section FactorDecay.

Variables (f L : float).

Hypothesis f_nonneg : (0 <=? f)%float = true.
Hypothesis f_le_one : (f <=? 1)%float = true.

Lemma factor_call_decay (s : FactorScheduler.t) (n : Z) :
  factor_decay_inv f L s ->
  factor_decay_inv f L (snd (FactorScheduler.call s n)) /\
  fst (FactorScheduler.call s n) = FactorScheduler.base_lr (snd (FactorScheduler.call s n)) /\
  (FactorScheduler.base_lr (snd (FactorScheduler.call s n))
     <=? FactorScheduler.base_lr s)%float = true.
Proof.
  intros (Hf & HL & Hfin & Hfloor). unfold FactorScheduler.call.
  destruct (FactorScheduler.count s + FactorScheduler.step s <? n); cbn [fst snd].
  - rewrite Hf, HL.
    destruct (float_mul_shrinks (FactorScheduler.base_lr s) f Hfin f_nonneg f_le_one)
      as [Hpfin Hple].
    destruct (FactorScheduler.base_lr s * f <? L)%float eqn:Hlt;
      unfold factor_decay_inv; cbn [FactorScheduler.base_lr FactorScheduler.factor
                                      FactorScheduler.stop_factor_lr].
    + pose proof (float_floor_between _ _ _ Hpfin Hfin Hlt Hfloor) as HLfin.
      repeat split; try assumption.
      apply float_leb_refl. now apply finite_nonneg_not_nan.
    + repeat split; try assumption.
      apply float_ltb_false_leb; [now apply finite_nonneg_not_nan| |assumption].
      now destruct (float_leb_not_nan _ _ Hfloor).
  - repeat split; try assumption.
    apply float_leb_refl. now apply finite_nonneg_not_nan.
Qed.

Lemma factor_run_decay (ns : list Z) (s : FactorScheduler.t) :
  factor_decay_inv f L s ->
  rates_non_increasing
    (FactorScheduler.base_lr s :: fst (run FactorScheduler.call s ns)) = true /\
  rates_at_least L (fst (run FactorScheduler.call s ns)) = true.
Proof.
  revert s. induction ns as [|n ns IH]; intros s Hs; [split; reflexivity|].
  destruct (factor_call_decay s n Hs) as (Hs1 & Hr & Hle).
  cbn [run]. destruct (FactorScheduler.call s n) as [r s1]. cbn [fst snd] in *.
  destruct (IH s1 Hs1) as [Hmono Hfloor].
  destruct (run FactorScheduler.call s1 ns) as [rs s2]. cbn [fst snd] in *.
  subst r. split.
  - cbn [rates_non_increasing]. rewrite Hle. exact Hmono.
  - cbn [rates_at_least forallb]. destruct Hs1 as (_ & _ & _ & ->). exact Hfloor.
Qed.

End FactorDecay.

Lemma rates_non_increasing_tail (r : float) (rs : list float) :
  rates_non_increasing (r :: rs) = true -> rates_non_increasing rs = true.
Proof.
  destruct rs as [|r' rs]; [reflexivity|]. cbn [rates_non_increasing].
  intros H. now apply andb_prop in H.
Qed.

(** C2 (with the factor at least zero and the floor at most the initial rate):
    for a [FactorScheduler] constructed with [step >= 1], [0 <= factor <= 1.0]
    and a floor [L = stop_factor_lr <= 0.01], the rates returned along any
    sequence of calls never increase from one call to the next, and none is
    below [L]. *)
Theorem factor_rates_non_increasing_floored
  (step : Z) (factor L : float) (s0 : FactorScheduler.t) (ns : list Z) :
  FactorScheduler.init step factor L = Ok s0 ->
  (0 <=? factor)%float = true ->
  (L <=? 0.01)%float = true ->
  rates_non_increasing (fst (run FactorScheduler.call s0 ns)) = true /\
  rates_at_least L (fst (run FactorScheduler.call s0 ns)) = true.
Proof.
  intros Hinit Hf0 HL.
  destruct (factor_init_ok _ _ _ _ Hinit) as (-> & _ & Hf1).
  assert (Hle1 : (factor <=? 1)%float = true).
  { apply float_ltb_false_leb; [reflexivity| |assumption].
    now destruct (float_leb_not_nan _ _ Hf0). }
  match goal with |- context [run _ ?s _] => set (s0 := s) end.
  assert (H0 : factor_decay_inv factor L s0) by (repeat split; assumption).
  destruct (factor_run_decay factor L Hf0 Hle1 ns s0 H0) as [Hmono Hfloor].
  split; [|assumption]. now apply rates_non_increasing_tail in Hmono.
Qed.

Lemma factor_rates_non_increasing_floored_witness :
  rates_non_increasing
    (fst (run FactorScheduler.call
            {| FactorScheduler.base_lr := 0.01%float;
               FactorScheduler.step := 2;
               FactorScheduler.factor := 0.5%float;
               FactorScheduler.stop_factor_lr := 0.003%float;
               FactorScheduler.count := 0 |} [0; 3; 3; 9; 20; 21])) = true /\
  rates_at_least 0.003
    (fst (run FactorScheduler.call
            {| FactorScheduler.base_lr := 0.01%float;
               FactorScheduler.step := 2;
               FactorScheduler.factor := 0.5%float;
               FactorScheduler.stop_factor_lr := 0.003%float;
               FactorScheduler.count := 0 |} [0; 3; 3; 9; 20; 21])) = true.
Proof.
  apply (factor_rates_non_increasing_floored 2 0.5%float 0.003%float); reflexivity.
Defined.

(** C2 fails as stated: with a floor above the initial rate the first rate is
    below the floor and the first decay raises the rate to the floor; with a
    negative factor and a negative floor the rate changes sign at each decay
    and so rises at every second one. *)
Lemma factor_rates_rise_or_pass_floor :
  (exists s0 rs,
      FactorScheduler.init 1 0.5 1 = Ok s0 /\
      fst (run FactorScheduler.call s0 [0; 2]) = rs /\
      rs = [0.01; 1]%float /\
      rates_at_least 1 rs = false /\ rates_non_increasing rs = false) /\
  (exists s0 rs,
      FactorScheduler.init 1 (-1) (-1) = Ok s0 /\
      fst (run FactorScheduler.call s0 [2; 3]) = rs /\
      rs = [-0.01; 0.01]%float /\
      rates_non_increasing rs = false).
Proof.
  split; do 2 eexists; (split; [reflexivity|]); (split; [reflexivity|]);
    repeat split; reflexivity.
Qed.

(** ** MultiFactorScheduler *)

(** *** The cursor into the milestone list *)

Lemma list_getitem_in_range (l : list Z) (i : Z) :
  0 <= i < Z.of_nat (List.length l) ->
  list_getitem l i = Ok (nth (Z.to_nat i) l 0).
Proof.
  intros H. unfold list_getitem.
  destruct (Z.ltb_spec i 0); [lia|].
  destruct (Z.leb_spec 0 i); [|lia].
  destruct (Z.ltb_spec i (Z.of_nat (List.length l))); [reflexivity|lia].
Qed.

Lemma multi_call_cursor (s : MultiFactorScheduler.t) (num_update : Z) :
  cursor_in_range s ->
  let r := fst (MultiFactorScheduler.call s num_update) in
  let s' := snd (MultiFactorScheduler.call s num_update) in
  MultiFactorScheduler.step s' = MultiFactorScheduler.step s /\
  MultiFactorScheduler.cur_step_ind s <= MultiFactorScheduler.cur_step_ind s'
    <= MultiFactorScheduler.cur_step_ind s + 1 /\
  cursor_in_range s' /\
  r = Ok (MultiFactorScheduler.base_lr s') /\
  (MultiFactorScheduler.cur_step_ind s
     = Z.of_nat (List.length (MultiFactorScheduler.step s)) ->
   s' = s).
Proof.
  unfold cursor_in_range, MultiFactorScheduler.call. intros H.
  destruct (Z.leb_spec (MultiFactorScheduler.cur_step_ind s)
              (Z.of_nat (List.length (MultiFactorScheduler.step s)) - 1)) as [Hin|Hout].
  - rewrite list_getitem_in_range by lia.
    destruct (_ <? num_update); cbn [fst snd MultiFactorScheduler.step
      MultiFactorScheduler.cur_step_ind MultiFactorScheduler.base_lr];
      repeat split; try lia; reflexivity.
  - cbn [fst snd]. repeat split; try lia; reflexivity.
Qed.

Lemma multi_run_cursor (ns : list Z) (s : MultiFactorScheduler.t) :
  cursor_in_range s ->
  cursor_in_range (snd (run MultiFactorScheduler.call s ns)) /\
  MultiFactorScheduler.step (snd (run MultiFactorScheduler.call s ns))
    = MultiFactorScheduler.step s.
Proof.
  revert s. induction ns as [|n ns IH]; intros s H; cbn [run]; [now split|].
  destruct (multi_call_cursor s n H) as (Hst & _ & Hr & _).
  destruct (MultiFactorScheduler.call s n) as [r s1]. cbn [fst snd] in *.
  destruct (IH s1 Hr) as [H1 H2].
  destruct (run MultiFactorScheduler.call s1 ns) as [rs s2]. cbn [fst snd] in *.
  split; [assumption|congruence].
Qed.

(** C7: after any sequence of calls on a constructed [MultiFactorScheduler]
    (non-decreasing [num_update] or not), one more call leaves [cur_step_ind]
    unchanged or increases it by one, keeps it at most the number of
    milestones, and, when it already equals that number, changes nothing and
    returns the current [base_lr]. *)
Theorem multi_cursor_monotone_bounded
  (steps : list Z) (factor : float) (s0 : MultiFactorScheduler.t)
  (ns : list Z) (num_update : Z) :
  MultiFactorScheduler.init steps factor = Ok s0 ->
  let s := snd (run MultiFactorScheduler.call s0 ns) in
  let r := fst (MultiFactorScheduler.call s num_update) in
  let s' := snd (MultiFactorScheduler.call s num_update) in
  MultiFactorScheduler.step s' = steps /\
  MultiFactorScheduler.cur_step_ind s <= MultiFactorScheduler.cur_step_ind s'
    <= MultiFactorScheduler.cur_step_ind s + 1 /\
  0 <= MultiFactorScheduler.cur_step_ind s' <= Z.of_nat (List.length steps) /\
  (MultiFactorScheduler.cur_step_ind s = Z.of_nat (List.length steps) ->
   s' = s /\ r = Ok (MultiFactorScheduler.base_lr s)).
Proof.
  intros Hinit. destruct (multi_init_ok _ _ _ Hinit) as (-> & _ & _ & _).
  match goal with |- context [run _ ?s0 ns] => set (i0 := s0) end.
  assert (H0 : cursor_in_range i0) by (unfold cursor_in_range; cbn; lia).
  destruct (multi_run_cursor ns i0 H0) as [Hc Hs].
  cbn zeta.
  destruct (multi_call_cursor _ num_update Hc) as (Hst & Hmono & Hr & Hret & Hend).
  unfold cursor_in_range in Hr. rewrite Hst, Hs in Hr. rewrite Hs in Hend.
  change (MultiFactorScheduler.step i0) with steps in *.
  repeat split; try lia; try congruence.
  - now apply Hend.
  - rewrite Hret. now rewrite Hend.
Qed.

Lemma multi_cursor_monotone_bounded_witness :
  let s := snd (run MultiFactorScheduler.call (multi_5_10_after 0 0.01%float 0)
                  [0; 7; 7; 20]) in
  let r := fst (MultiFactorScheduler.call s 30) in
  let s' := snd (MultiFactorScheduler.call s 30) in
  MultiFactorScheduler.step s' = [5; 10] /\
  MultiFactorScheduler.cur_step_ind s <= MultiFactorScheduler.cur_step_ind s'
    <= MultiFactorScheduler.cur_step_ind s + 1 /\
  0 <= MultiFactorScheduler.cur_step_ind s' <= Z.of_nat (List.length [5; 10]) /\
  (MultiFactorScheduler.cur_step_ind s = Z.of_nat (List.length [5; 10]) ->
   s' = s /\ r = Ok (MultiFactorScheduler.base_lr s)).
Proof.
  apply (multi_cursor_monotone_bounded [5; 10] 0.1%float). reflexivity.
Defined.

(** *** Worked example *)

Lemma multi_5_10_exhausted (lr : float) (num_update : Z) :
  MultiFactorScheduler.call (multi_5_10_after 2 lr 10) num_update =
  (Ok lr, multi_5_10_after 2 lr 10).
Proof. reflexivity. Qed.

Lemma multi_5_10_run (n : nat) :
  run MultiFactorScheduler.call (multi_5_10_after 0 0.01%float 0) (updates_upto n) =
  (map (fun k => Ok (rate_5_10 k)) (updates_upto n), multi_5_10_state n).
Proof.
  induction n as [|n IH]; [reflexivity|].
  rewrite updates_upto_S, run_app, IH, map_app. cbn [fst snd].
  destruct (Nat.le_gt_cases n 10) as [Hsmall|Hlarge].
  - do 11 (destruct n as [|n]; [reflexivity|]). lia.
  - assert (Hn : multi_5_10_state n = multi_5_10_after 2 0.0001%float 10).
    { unfold multi_5_10_state.
      destruct (Nat.leb_spec n 5); [lia|]. destruct (Nat.leb_spec n 10); [lia|].
      reflexivity. }
    assert (HSn : multi_5_10_state (S n) = multi_5_10_after 2 0.0001%float 10).
    { unfold multi_5_10_state.
      destruct (Nat.leb_spec (S n) 5); [lia|]. destruct (Nat.leb_spec (S n) 10); [lia|].
      reflexivity. }
    rewrite Hn, HSn. cbn [run]. rewrite multi_5_10_exhausted. cbn [fst snd map].
    unfold rate_5_10.
    destruct (Z.leb_spec (Z.of_nat (S n)) 5); [lia|].
    destruct (Z.leb_spec (Z.of_nat (S n)) 10); [lia|].
    reflexivity.
Qed.

(** C6: [MultiFactorScheduler(step=[5,10], factor=0.1)], called once for each
    [num_update] = 0, 1, ..., n, returns 0.01 while [num_update <= 5], 0.001
    while [5 < num_update <= 10] and 0.0001 from 11 on, however large [n]. *)
Theorem multi_5_10_rates (n : nat) :
  exists s0,
    MultiFactorScheduler.init [5; 10] 0.1%float = Ok s0 /\
    fst (run MultiFactorScheduler.call s0 (updates_upto n)) =
    map (fun num_update => Ok (rate_5_10 num_update)) (updates_upto n) /\
    (0.01 * 0.1 = 0.001)%float /\ (0.01 * 0.1 * 0.1 = 0.0001)%float.
Proof.
  exists (multi_5_10_after 0 0.01%float 0).
  split; [reflexivity|]. split; [|split; reflexivity].
  now rewrite multi_5_10_run.
Qed.

(** ** Calling twice with the same [num_update] *)

Section Paced.

Context {S : Type} `{LRScheduler S}.

(** [Inv s last]: what is known of [s] when [last] was the latest
    [num_update]. *)
Variable Inv : S -> Z -> Prop.

Hypothesis Inv_call : forall s last n,
  Inv s last -> last <= n <= last + 1 -> Inv (snd (lr_call s n)) n.

Hypothesis Inv_same : forall s last n,
  Inv s last -> last <= n <= last + 1 ->
  fst (lr_call s n) = fst (lr_call (snd (lr_call s n)) n).

Lemma paced_repeat_stable (ns : list Z) :
  forall (s : S) (prev n : Z),
    Inv s prev -> unit_paced prev (ns ++ [n]) -> repeat_stable (after_calls s ns) n.
Proof.
  induction ns as [|m ns IH]; intros s prev n HI Hp.
  - destruct Hp as [Hn _]. unfold after_calls, repeat_stable. cbn [run snd].
    symmetry. now apply (Inv_same s prev n).
  - destruct Hp as [Hm Hp]. unfold after_calls. cbn [app run].
    pose proof (Inv_call s prev m HI Hm) as HI'.
    destruct (lr_call s m) as [r s1]. cbn [snd] in HI'.
    specialize (IH s1 m n HI' Hp). unfold after_calls in IH.
    destruct (run lr_call s1 ns) as [rs s2]. exact IH.
Qed.

End Paced.

Lemma factor_paced_inv_call (s : FactorScheduler.t) (last n : Z) :
  factor_paced_inv s last -> last <= n <= last + 1 ->
  factor_paced_inv (snd (lr_call s n)) n.
Proof.
  unfold factor_paced_inv. cbn [lr_call FactorScheduler_sched].
  unfold FactorScheduler.call. intros [Hs Hl] Hn.
  destruct (Z.ltb_spec (FactorScheduler.count s + FactorScheduler.step s) n);
    cbn [snd FactorScheduler.step FactorScheduler.count]; lia.
Qed.

Lemma factor_settled (s : FactorScheduler.t) (n : Z) :
  factor_paced_inv s n -> lr_call s n = (Ok (FactorScheduler.base_lr s), s).
Proof.
  unfold factor_paced_inv. cbn [lr_call FactorScheduler_sched].
  unfold FactorScheduler.call. intros [Hs Hl].
  destruct (Z.ltb_spec (FactorScheduler.count s + FactorScheduler.step s) n);
    [lia|reflexivity].
Qed.

Lemma factor_call_returns_base_lr (s : FactorScheduler.t) (n : Z) :
  fst (lr_call s n) = Ok (FactorScheduler.base_lr (snd (lr_call s n))).
Proof.
  cbn [lr_call FactorScheduler_sched]. unfold FactorScheduler.call.
  now destruct (_ <? n).
Qed.

Lemma strictly_increasing_next (l : list Z) (i : nat) :
  strictly_increasing l = true -> (S i < List.length l)%nat ->
  nth i l 0 < nth (S i) l 0.
Proof.
  revert i. induction l as [|a l IH]; intros i Hs Hi; [cbn in Hi; lia|].
  destruct l as [|b l]; [cbn in Hi; lia|].
  cbn [strictly_increasing] in Hs. apply andb_prop in Hs as [Hab Hs].
  destruct i as [|i].
  - cbn. now apply Z.ltb_lt.
  - change (nth i (b :: l) 0 < nth (S i) (b :: l) 0). apply IH; [assumption|].
    cbn [List.length] in *. lia.
Qed.

Lemma multi_paced_inv_call (s : MultiFactorScheduler.t) (last n : Z) :
  multi_paced_inv s last -> last <= n <= last + 1 ->
  multi_paced_inv (snd (lr_call s n)) n.
Proof.
  unfold multi_paced_inv, cursor_in_range. cbn [lr_call MultiFactorScheduler_sched].
  unfold MultiFactorScheduler.call. intros (Hc & Hs & Hl) Hn.
  destruct (Z.leb_spec (MultiFactorScheduler.cur_step_ind s)
              (Z.of_nat (List.length (MultiFactorScheduler.step s)) - 1)) as [Hin|Hout].
  - rewrite list_getitem_in_range by lia.
    specialize (Hl ltac:(lia)).
    destruct (Z.ltb_spec
                (nth (Z.to_nat (MultiFactorScheduler.cur_step_ind s))
                   (MultiFactorScheduler.step s) 0) n) as [Hgt|Hle];
      cbn [snd MultiFactorScheduler.step MultiFactorScheduler.cur_step_ind].
    + split; [lia|]. split; [assumption|]. intros Hnext.
      replace (Z.to_nat (MultiFactorScheduler.cur_step_ind s + 1))
        with (S (Z.to_nat (MultiFactorScheduler.cur_step_ind s))) by lia.
      pose proof (strictly_increasing_next (MultiFactorScheduler.step s)
                    (Z.to_nat (MultiFactorScheduler.cur_step_ind s)) Hs ltac:(lia)).
      lia.
    + split; [lia|]. split; [assumption|]. intros _. lia.
  - cbn [snd]. split; [lia|]. split; [assumption|]. intros ?. lia.
Qed.

Lemma multi_settled (s : MultiFactorScheduler.t) (n : Z) :
  multi_paced_inv s n -> lr_call s n = (Ok (MultiFactorScheduler.base_lr s), s).
Proof.
  unfold multi_paced_inv, cursor_in_range. cbn [lr_call MultiFactorScheduler_sched].
  unfold MultiFactorScheduler.call. intros (Hc & Hs & Hl).
  destruct (Z.leb_spec (MultiFactorScheduler.cur_step_ind s)
              (Z.of_nat (List.length (MultiFactorScheduler.step s)) - 1)) as [Hin|Hout];
    [|reflexivity].
  rewrite list_getitem_in_range by lia. specialize (Hl ltac:(lia)).
  destruct (Z.ltb_spec
              (nth (Z.to_nat (MultiFactorScheduler.cur_step_ind s))
                 (MultiFactorScheduler.step s) 0) n); [lia|reflexivity].
Qed.

(** C3 (under the caller's contract): on a constructed [FactorScheduler] or
    [MultiFactorScheduler] whose calls so far started at 0 or 1 and never
    raised [num_update] by more than one, a call that follows this pace and its
    immediate repetition with the same [num_update] return the same rate; on a
    [PolyScheduler] two calls in a row with the same [num_update] return the
    same result in every state. *)
Theorem repeated_call_same_rate :
  (forall step factor stop_factor_lr s0 ns n,
      FactorScheduler.init step factor stop_factor_lr = Ok s0 ->
      unit_paced 0 (ns ++ [n]) ->
      repeat_stable (after_calls s0 ns) n) /\
  (forall steps factor s0 ns n,
      MultiFactorScheduler.init steps factor = Ok s0 ->
      unit_paced 0 (ns ++ [n]) ->
      repeat_stable (after_calls s0 ns) n) /\
  (forall math_pow (s : PolyScheduler.t) n,
      @repeat_stable _ (PolyScheduler_sched math_pow) s n).
Proof.
  split; [|split].
  - intros step factor stop_factor_lr s0 ns n Hinit Hp.
    destruct (factor_init_ok _ _ _ _ Hinit) as (-> & Hstep & _).
    apply (paced_repeat_stable factor_paced_inv factor_paced_inv_call) with (prev := 0);
      [|unfold factor_paced_inv; cbn; lia|assumption].
    intros s last m HI Hm.
    pose proof (factor_paced_inv_call s last m HI Hm) as HI'.
    rewrite (factor_settled _ _ HI'). apply factor_call_returns_base_lr.
  - intros steps factor s0 ns n Hinit Hp.
    destruct (multi_init_ok _ _ _ Hinit) as (-> & Hne & Hchk & _).
    destruct (strictly_increasing_first_positive _ Hchk) as [Hinc Hpos].
    apply (paced_repeat_stable multi_paced_inv multi_paced_inv_call) with (prev := 0).
    + intros s last m HI Hm.
      pose proof (multi_paced_inv_call s last m HI Hm) as HI'.
      rewrite (multi_settled _ _ HI').
      destruct HI as (Hc & _).
      now destruct (multi_call_cursor s m Hc) as (_ & _ & _ & Hr & _).
    + unfold multi_paced_inv, cursor_in_range. cbn. split; [lia|].
      split; [assumption|]. intros _.
      destruct steps as [|a l]; [congruence|]. cbn in Hpos.
      apply orb_false_elim in Hpos as [Ha _]. apply Z.ltb_ge in Ha. cbn. lia.
    + assumption.
  - intros math_pow s n. reflexivity.
Qed.

Lemma repeated_call_same_rate_witness :
  repeat_stable
    (after_calls
       {| FactorScheduler.base_lr := 0.01%float;
          FactorScheduler.step := 2;
          FactorScheduler.factor := 0.5%float;
          FactorScheduler.stop_factor_lr := 1e-8%float;
          FactorScheduler.count := 0 |} [0; 1; 2]) 3 /\
  repeat_stable (after_calls (multi_5_10_after 0 0.01%float 0) [1; 2; 3; 4; 5]) 6 /\
  @repeat_stable _ (PolyScheduler_sched math_pow_exact)
    {| PolyScheduler.base_lr := 0.01%float;
       PolyScheduler.power := 0.9%float;
       PolyScheduler.total_update := 100 |} 50.
Proof.
  destruct repeated_call_same_rate as (HF & HM & HP).
  split; [|split].
  - apply (HF 2 0.5%float 1e-8%float); [reflexivity|]. cbn. lia.
  - apply (HM [5; 10] 0.1%float); [reflexivity|]. cbn. lia.
  - apply HP.
Defined.

(** C3 fails as stated: on a fresh [FactorScheduler(step=2, factor=0.5)] the
    call with [num_update = 10] decays once, and its repetition decays again
    and returns a smaller rate. *)
Lemma factor_repeated_call_decays_twice :
  exists s0,
    FactorScheduler.init 2 0.5 FactorScheduler.default_stop_factor_lr = Ok s0 /\
    fst (FactorScheduler.call s0 10) = (0.01 * 0.5)%float /\
    fst (FactorScheduler.call (snd (FactorScheduler.call s0 10)) 10)
      = (0.01 * 0.5 * 0.5)%float /\
    (0.01 * 0.5 * 0.5 <? 0.01 * 0.5)%float = true /\
    ~ repeat_stable s0 10.
Proof.
  eexists. split; [reflexivity|]. do 3 (split; [reflexivity|]).
  unfold repeat_stable. cbn. intros H.
  apply (f_equal (fun r => match r with Ok x => (x <? 0.005)%float | Raise _ => false end))
    in H.
  discriminate H.
Qed.

(** ** PolyScheduler *)

(** *** With [total_update = 0] *)

(** C9 (with the conversion error named): [PolyScheduler(total_update=0,
    power)] constructs for every accepted [power], and every call on it raises:
    [ZeroDivisionError] when [float(num_update)] exists, and the
    [OverflowError] of that conversion otherwise. *)
Theorem poly_zero_total_always_raises
  (math_pow : float -> float -> result float) (power : float) (num_update : Z) :
  ((1 <? power) || (power <? 0))%float = false ->
  exists s,
    PolyScheduler.init 0 power = Ok s /\
    is_raise (fst (PolyScheduler.call math_pow s num_update)) = true /\
    fst (PolyScheduler.call math_pow s num_update) =
      match float_of_int num_update with
      | Ok _ => Raise ZeroDivisionError
      | Raise e => Raise e
      end.
Proof.
  intros Hp. unfold PolyScheduler.init. rewrite Hp. eexists. split; [reflexivity|].
  unfold PolyScheduler.call. cbn [fst PolyScheduler.total_update].
  destruct (float_of_int num_update) as [x|e]; split; reflexivity.
Qed.

Lemma poly_zero_total_always_raises_witness :
  exists s,
    PolyScheduler.init 0 0.9 = Ok s /\
    is_raise (fst (PolyScheduler.call math_pow_exact s 7)) = true /\
    fst (PolyScheduler.call math_pow_exact s 7) =
      match float_of_int 7 with
      | Ok _ => Raise ZeroDivisionError
      | Raise e => Raise e
      end.
Proof.
  apply (poly_zero_total_always_raises math_pow_exact 0.9%float 7). reflexivity.
Defined.

(** C9 fails as stated: a call whose [num_update] is too large for a float
    raises [OverflowError], not [ZeroDivisionError]. *)
Lemma poly_zero_total_overflow_first :
  ~ (forall (math_pow : float -> float -> result float) (num_update : Z) s,
        PolyScheduler.init 0 0.9 = Ok s ->
        fst (PolyScheduler.call math_pow s num_update) = Raise ZeroDivisionError).
Proof.
  intros H.
  specialize (H math_pow_exact (2 ^ 1024) _ eq_refl).
  vm_compute in H. discriminate H.
Qed.

(** *** At the end of the schedule *)

Lemma math_pow_exact_zero_base (y : float) :
  (0 <? y)%float = true -> math_pow_exact 0 y = Ok 0%float.
Proof.
  intros Hy. unfold math_pow_exact.
  rewrite (float_positive_nonzero y Hy), Hy.
  change (PrimFloat.Leibniz.eqb 0 1) with false.
  change (PrimFloat.Leibniz.eqb 0 0) with true.
  now destruct (PrimFloat.Leibniz.eqb y 1).
Qed.

Lemma math_pow_exact_unit_exponent (x : float) : math_pow_exact x 1 = Ok x.
Proof.
  unfold math_pow_exact. change (1 =? 0)%float with false.
  change (PrimFloat.Leibniz.eqb 1 1) with true.
  destruct (PrimFloat.Leibniz.eqb x 1) eqn:Hx; [|reflexivity].
  apply FloatAxioms.Leibniz.eqb_spec in Hx. now subst x.
Qed.

(** C4 (for a nonzero [total_update] that has a float and [power > 0]): a
    [PolyScheduler] constructed with such a [total_update] and [0 < power <=
    1.0] returns exactly [+0.0] at [num_update = total_update]; and
    [PolyScheduler(total_update=100, power=1.0)] returns [base_lr] at 0,
    [base_lr * 0.5] at 50 and [0.0] at 100. Of [math.pow] only
    [pow(+0, y) = +0] for [y > 0] and [pow(x, 1.0) = x] are used. *)
Theorem poly_zero_at_total_update
  (math_pow : float -> float -> result float)
  (total_update : Z) (power : float) (s : PolyScheduler.t) :
  (forall y, (0 <? y)%float = true -> math_pow 0%float y = Ok 0%float) ->
  (forall x, math_pow x 1%float = Ok x) ->
  PolyScheduler.init total_update power = Ok s ->
  total_update <> 0 ->
  is_raise (float_of_int total_update) = false ->
  (0 <? power)%float = true ->
  fst (PolyScheduler.call math_pow s total_update) = Ok 0%float /\
  PolyScheduler.init 100 1 = Ok poly_100_linear /\
  fst (PolyScheduler.call math_pow poly_100_linear 0) = Ok 0.01%float /\
  fst (PolyScheduler.call math_pow poly_100_linear 50) = Ok (0.01 * 0.5)%float /\
  fst (PolyScheduler.call math_pow poly_100_linear 100) = Ok 0%float.
Proof.
  intros Hzero Hone Hinit Hne Hconv Hpos. split.
  - unfold PolyScheduler.init in Hinit.
    destruct ((1 <? power) || (power <? 0))%float; [discriminate|].
    injection Hinit as <-.
    unfold PolyScheduler.call.
    cbn [fst PolyScheduler.total_update PolyScheduler.power PolyScheduler.base_lr].
    destruct (float_of_int total_update) as [d|e] eqn:Hd; [|discriminate].
    destruct (float_of_int_finite total_update d Hne Hd) as (sd & md & ed & Hfin).
    cbn [bind]. unfold float_truediv.
    rewrite (float_finite_nonzero d sd md ed Hfin). cbn [bind].
    rewrite (float_div_self d sd md ed Hfin).
    change (1 - 1)%float with 0%float. rewrite (Hzero power Hpos). reflexivity.
  - split; [reflexivity|]. unfold PolyScheduler.call, poly_100_linear.
    cbn [fst PolyScheduler.total_update PolyScheduler.power PolyScheduler.base_lr].
    repeat split.
    + change (float_of_int 0) with (Ok 0%float).
      change (float_of_int 100) with (Ok 100%float). cbn [bind].
      change (float_truediv 0 100) with (Ok 0%float). cbn [bind].
      change (1 - 0)%float with 1%float. rewrite Hone. reflexivity.
    + change (float_of_int 50) with (Ok 50%float).
      change (float_of_int 100) with (Ok 100%float). cbn [bind].
      change (float_truediv 50 100) with (Ok 0.5%float). cbn [bind].
      change (1 - 0.5)%float with 0.5%float. rewrite Hone. reflexivity.
    + change (float_of_int 100) with (Ok 100%float). cbn [bind].
      change (float_truediv 100 100) with (Ok 1%float). cbn [bind].
      change (1 - 1)%float with 0%float. rewrite Hone. reflexivity.
Qed.

Lemma poly_zero_at_total_update_witness :
  fst (PolyScheduler.call math_pow_exact
         {| PolyScheduler.base_lr := 0.01%float;
            PolyScheduler.power := 0.9%float;
            PolyScheduler.total_update := 2000 |} 2000) = Ok 0%float /\
  PolyScheduler.init 100 1 = Ok poly_100_linear /\
  fst (PolyScheduler.call math_pow_exact poly_100_linear 0) = Ok 0.01%float /\
  fst (PolyScheduler.call math_pow_exact poly_100_linear 50) = Ok (0.01 * 0.5)%float /\
  fst (PolyScheduler.call math_pow_exact poly_100_linear 100) = Ok 0%float.
Proof.
  apply (poly_zero_at_total_update math_pow_exact 2000 0.9%float).
  - exact math_pow_exact_zero_base.
  - exact math_pow_exact_unit_exponent.
  - reflexivity.
  - discriminate.
  - reflexivity.
  - reflexivity.
Defined.

(** Python documents [math.pow(x, 0.0) = 1.0] for every [x]: with it, a
    [PolyScheduler] of power [0.0] returns [base_lr] at every [num_update]
    that, like [total_update], has a float, the last one included. *)
Lemma poly_power_zero_constant
  (math_pow : float -> float -> result float) (total_update : Z) (s : PolyScheduler.t) :
  (forall x, math_pow x 0%float = Ok 1%float) ->
  PolyScheduler.init total_update 0 = Ok s ->
  total_update <> 0 ->
  is_raise (float_of_int total_update) = false ->
  fst (PolyScheduler.call math_pow s total_update) = Ok 0.01%float.
Proof.
  intros Hpow Hinit Hne Hconv. injection Hinit as <-.
  unfold PolyScheduler.call.
  cbn [fst PolyScheduler.total_update PolyScheduler.power PolyScheduler.base_lr].
  destruct (float_of_int total_update) as [d|e] eqn:Hd; [|discriminate].
  destruct (float_of_int_finite total_update d Hne Hd) as (sd & md & ed & Hfin).
  cbn [bind]. unfold float_truediv.
  rewrite (float_finite_nonzero d sd md ed Hfin). cbn [bind].
  rewrite Hpow. reflexivity.
Qed.

(** C4 fails as stated: with [total_update = 0] the call raises
    [ZeroDivisionError], with a [total_update] beyond the floats it raises
    [OverflowError], and with the accepted [power = 0.0] it returns [base_lr],
    since [math.pow(0.0, 0.0)] is [1.0]. *)
Lemma poly_not_zero_at_total_update :
  (exists s, PolyScheduler.init 0 1 = Ok s /\
             fst (PolyScheduler.call math_pow_exact s 0) = Raise ZeroDivisionError) /\
  (exists s, PolyScheduler.init (2 ^ 1024) 1 = Ok s /\
             fst (PolyScheduler.call math_pow_exact s (2 ^ 1024)) = Raise OverflowError) /\
  (exists s, PolyScheduler.init 100 0 = Ok s /\
             fst (PolyScheduler.call math_pow_exact s 100) = Ok 0.01%float).
Proof.
  repeat split; eexists; split; reflexivity.
Qed.

(** ** FactorScheduler: the schedule *)

Lemma factor_after_decays_0 (s : FactorScheduler.t) : factor_after_decays s 0 = s.
Proof.
  destruct s as [b st f L c]. unfold factor_after_decays. cbn.
  now rewrite Z.mul_0_r, Z.add_0_r.
Qed.

Lemma factor_after_decays_S (s : FactorScheduler.t) (k : nat) (n : Z) :
  FactorScheduler.count s + FactorScheduler.step s * Z.of_nat k
    + FactorScheduler.step s < n ->
  FactorScheduler.call (factor_after_decays s k) n =
  (FactorScheduler.base_lr (factor_after_decays s (S k)), factor_after_decays s (S k)).
Proof.
  intros H. unfold FactorScheduler.call, factor_after_decays.
  cbn [FactorScheduler.count FactorScheduler.step FactorScheduler.base_lr
       FactorScheduler.factor FactorScheduler.stop_factor_lr].
  destruct (Z.ltb_spec (FactorScheduler.count s + FactorScheduler.step s * Z.of_nat k
                        + FactorScheduler.step s) n); [|lia].
  replace (FactorScheduler.count s + FactorScheduler.step s * Z.of_nat (S k))
    with (FactorScheduler.count s + FactorScheduler.step s * Z.of_nat k
          + FactorScheduler.step s) by lia.
  reflexivity.
Qed.

Lemma factor_after_decays_settled (s : FactorScheduler.t) (k : nat) (n : Z) :
  n <= FactorScheduler.count s + FactorScheduler.step s * Z.of_nat k
       + FactorScheduler.step s ->
  FactorScheduler.call (factor_after_decays s k) n =
  (FactorScheduler.base_lr (factor_after_decays s k), factor_after_decays s k).
Proof.
  intros H. unfold FactorScheduler.call, factor_after_decays.
  cbn [FactorScheduler.count FactorScheduler.step FactorScheduler.base_lr
       FactorScheduler.factor FactorScheduler.stop_factor_lr].
  destruct (Z.ltb_spec (FactorScheduler.count s + FactorScheduler.step s * Z.of_nat k
                        + FactorScheduler.step s) n); [lia|reflexivity].
Qed.

Lemma decays_due_spec (step count n k : Z) :
  1 <= step -> 0 <= k ->
  (k < decays_due step count n <-> count + step * k + step < n).
Proof.
  intros Hs Hk. unfold decays_due.
  pose proof (Z.mul_div_le (n - count - 1) step ltac:(lia)) as Hl.
  pose proof (Z.mul_succ_div_gt (n - count - 1) step ltac:(lia)) as Hu.
  set (q := (n - count - 1) / step) in *.
  split; intros H.
  - assert (k + 1 <= q) by lia. nia.
  - assert (k < q) by nia. lia.
Qed.

Lemma factor_call_after_decays (s : FactorScheduler.t) (n : Z) (k : nat) :
  1 <= FactorScheduler.step s ->
  let D := Z.to_nat (decays_due (FactorScheduler.step s) (FactorScheduler.count s) n) in
  FactorScheduler.call (factor_after_decays s (Nat.min k D)) n =
  (FactorScheduler.base_lr (factor_after_decays s (Nat.min (S k) D)),
   factor_after_decays s (Nat.min (S k) D)).
Proof.
  intros Hs D.
  pose proof (decays_due_spec (FactorScheduler.step s) (FactorScheduler.count s) n
                (Z.of_nat (Nat.min k D)) Hs ltac:(lia)) as Hspec.
  assert (HD : Z.of_nat D = decays_due (FactorScheduler.step s) (FactorScheduler.count s) n)
    by (unfold D, decays_due; lia).
  destruct (Nat.lt_ge_cases k D) as [Hlt|Hge].
  - rewrite (Nat.min_l k D), (Nat.min_l (S k) D) in * by lia.
    apply factor_after_decays_S. apply Hspec. lia.
  - rewrite (Nat.min_r k D), (Nat.min_r (S k) D) in * by lia.
    apply factor_after_decays_settled.
    destruct (Z.le_gt_cases n (FactorScheduler.count s
                + FactorScheduler.step s * Z.of_nat D + FactorScheduler.step s));
      [assumption|].
    apply Hspec in H. lia.
Qed.

Lemma factor_repeated_calls_from (s : FactorScheduler.t) (n : Z) (j k : nat) :
  1 <= FactorScheduler.step s ->
  let D := Z.to_nat (decays_due (FactorScheduler.step s) (FactorScheduler.count s) n) in
  run FactorScheduler.call (factor_after_decays s (Nat.min k D)) (repeat n j) =
  (map (fun i => FactorScheduler.base_lr (factor_after_decays s (Nat.min i D)))
       (seq (S k) j),
   factor_after_decays s (Nat.min (k + j) D)).
Proof.
  intros Hs D. revert k. induction j as [|j IH]; intros k.
  - cbn [repeat run seq map]. now rewrite Nat.add_0_r.
  - cbn [repeat run seq map].
    pose proof (factor_call_after_decays s n k Hs) as Hc. cbn zeta in Hc. fold D in Hc.
    rewrite Hc, (IH (S k)). now replace (k + S j)%nat with (S k + j)%nat by lia.
Qed.

(** X1: calling a [FactorScheduler] again and again with the same
    [num_update] catches up one decay per call: of [j] such calls the first
    [decays_due step count num_update] decay and the others change nothing,
    so the [i]-th call returns the rate after [min i D] decays and [count]
    ends at [count + step * min j D]. *)
Theorem factor_repeated_calls_catch_up (s : FactorScheduler.t) (num_update : Z) (j : nat) :
  1 <= FactorScheduler.step s ->
  let D := Z.to_nat (decays_due (FactorScheduler.step s) (FactorScheduler.count s)
                       num_update) in
  run FactorScheduler.call s (repeat num_update j) =
  (map (fun i => FactorScheduler.base_lr (factor_after_decays s (Nat.min i D)))
       (seq 1 j),
   factor_after_decays s (Nat.min j D)).
Proof.
  intros Hs D.
  pose proof (factor_repeated_calls_from s num_update j 0 Hs) as H.
  cbn zeta in H. fold D in H.
  rewrite Nat.min_0_l, factor_after_decays_0 in H. exact H.
Qed.

Lemma factor_repeated_calls_catch_up_witness :
  run FactorScheduler.call
    {| FactorScheduler.base_lr := 0.01%float;
       FactorScheduler.step := 2;
       FactorScheduler.factor := 0.5%float;
       FactorScheduler.stop_factor_lr := 1e-8%float;
       FactorScheduler.count := 0 |} (repeat 7 5) =
  ([0.005; 0.0025; 0.00125; 0.00125; 0.00125]%float,
   {| FactorScheduler.base_lr := 0.00125%float;
      FactorScheduler.step := 2;
      FactorScheduler.factor := 0.5%float;
      FactorScheduler.stop_factor_lr := 1e-8%float;
      FactorScheduler.count := 6 |}).
Proof.
  exact (factor_repeated_calls_catch_up
           {| FactorScheduler.base_lr := 0.01%float;
              FactorScheduler.step := 2;
              FactorScheduler.factor := 0.5%float;
              FactorScheduler.stop_factor_lr := 1e-8%float;
              FactorScheduler.count := 0 |} 7 5 ltac:(cbn; lia)).
Defined.

Lemma decays_due_nonneg (step count n : Z) : 0 <= decays_due step count n.
Proof. unfold decays_due. lia. Qed.

Lemma decays_due_paced (step count prev n : Z) :
  1 <= step -> prev <= n <= prev + 1 ->
  decays_due step count n =
  if count + step * decays_due step count prev + step <? n
  then decays_due step count prev + 1
  else decays_due step count prev.
Proof.
  intros Hs Hn.
  pose proof (decays_due_nonneg step count prev) as Hd.
  pose proof (decays_due_nonneg step count n) as Hd'.
  pose proof (fun k => decays_due_spec step count prev k Hs) as Sp.
  pose proof (fun k => decays_due_spec step count n k Hs) as Sn.
  set (d := decays_due step count prev) in *.
  set (d' := decays_due step count n) in *.
  assert (Hge : d <= d').
  { destruct (Z.le_gt_cases d d') as [|Hlt]; [assumption|].
    apply (Sp d' Hd') in Hlt. assert (d' < d') by (apply Sn; lia). lia. }
  assert (Hle : d' <= d + 1).
  { destruct (Z.le_gt_cases d' (d + 1)) as [|Hgt]; [assumption|].
    apply (Sn (d + 1) ltac:(lia)) in Hgt.
    assert (d < d) by (apply Sp; [lia|nia]). lia. }
  destruct (Z.ltb_spec (count + step * d + step) n) as [Hlt|Hnlt].
  - apply (Sn d Hd) in Hlt. lia.
  - destruct (Z.eq_dec d' d) as [|Hne]; [assumption|].
    assert (Hdd : d < d') by lia. apply (Sn d Hd) in Hdd. lia.
Qed.

Lemma factor_paced_call (s : FactorScheduler.t) (prev n : Z) :
  1 <= FactorScheduler.step s -> prev <= n <= prev + 1 ->
  let K := fun m => Z.to_nat (decays_due (FactorScheduler.step s)
                                (FactorScheduler.count s) m) in
  FactorScheduler.call (factor_after_decays s (K prev)) n =
  (FactorScheduler.base_lr (factor_after_decays s (K n)), factor_after_decays s (K n)).
Proof.
  intros Hs Hn K. unfold K.
  pose proof (decays_due_nonneg (FactorScheduler.step s) (FactorScheduler.count s) prev).
  rewrite (decays_due_paced _ (FactorScheduler.count s) prev n Hs Hn).
  destruct (Z.ltb_spec (FactorScheduler.count s + FactorScheduler.step s
              * decays_due (FactorScheduler.step s) (FactorScheduler.count s) prev
              + FactorScheduler.step s) n) as [Hlt|Hge].
  - replace (Z.to_nat (decays_due (FactorScheduler.step s) (FactorScheduler.count s) prev + 1))
      with (S (Z.to_nat (decays_due (FactorScheduler.step s) (FactorScheduler.count s) prev)))
      by lia.
    apply factor_after_decays_S. lia.
  - apply factor_after_decays_settled. lia.
Qed.

Lemma factor_paced_run (s : FactorScheduler.t) (ns : list Z) :
  1 <= FactorScheduler.step s ->
  let K := fun m => Z.to_nat (decays_due (FactorScheduler.step s)
                                (FactorScheduler.count s) m) in
  forall prev,
    unit_paced prev ns ->
    run FactorScheduler.call (factor_after_decays s (K prev)) ns =
    (map (fun n => FactorScheduler.base_lr (factor_after_decays s (K n))) ns,
     factor_after_decays s (K (last ns prev))).
Proof.
  intros Hs K. induction ns as [|n ns IH]; intros prev Hp; [reflexivity|].
  destruct Hp as [Hn Hp]. cbn [run map].
  pose proof (factor_paced_call s prev n Hs Hn) as Hc. cbn zeta in Hc. fold K in Hc.
  rewrite Hc, (IH n Hp). f_equal. f_equal. f_equal.
  destruct ns as [|m ns]; [reflexivity|]. cbn [last].
  clear. revert m. induction ns as [|a ns IHl]; intros m; [reflexivity|]. apply IHl.
Qed.

(** X2: when [num_update] starts at 0 or 1 and never rises by more than one
    per call, the rate a constructed [FactorScheduler] returns at
    [num_update] is the initial rate decayed [max 0 ((num_update - 1) /
    step)] times (and not [num_update / step] times, as the docstring has
    it), and [count] ends at [step] times that number for the last
    [num_update]. *)
Theorem factor_paced_schedule
  (step : Z) (factor L : float) (s0 : FactorScheduler.t) (ns : list Z) :
  FactorScheduler.init step factor L = Ok s0 ->
  unit_paced 0 ns ->
  run FactorScheduler.call s0 ns =
  (map (fun n => Nat.iter (Z.to_nat (decays_due step 0 n)) (factor_decay factor L)
                   0.01%float) ns,
   factor_after_decays s0 (Z.to_nat (decays_due step 0 (last ns 0)))).
Proof.
  intros Hinit Hp. destruct (factor_init_ok _ _ _ _ Hinit) as (-> & Hstep & _).
  match goal with |- run _ ?s _ = _ => set (s0 := s) end.
  pose proof (factor_paced_run s0 ns Hstep 0 Hp) as H. cbv beta zeta in H.
  change (FactorScheduler.step s0) with step in H.
  change (FactorScheduler.count s0) with 0 in H.
  replace (Z.to_nat (decays_due step 0 0)) with 0%nat in H
    by (unfold decays_due; pose proof (Z.div_lt_upper_bound (0 - 0 - 1) step 0); lia).
  rewrite factor_after_decays_0 in H. exact H.
Qed.

Lemma factor_paced_schedule_witness :
  run FactorScheduler.call
    {| FactorScheduler.base_lr := 0.01%float;
       FactorScheduler.step := 3;
       FactorScheduler.factor := 0.5%float;
       FactorScheduler.stop_factor_lr := 1e-8%float;
       FactorScheduler.count := 0 |} [1; 2; 3; 4; 4; 5; 6; 7; 8] =
  ([0.01; 0.01; 0.01; 0.005; 0.005; 0.005; 0.005; 0.0025; 0.0025]%float,
   {| FactorScheduler.base_lr := 0.0025%float;
      FactorScheduler.step := 3;
      FactorScheduler.factor := 0.5%float;
      FactorScheduler.stop_factor_lr := 1e-8%float;
      FactorScheduler.count := 6 |}).
Proof.
  apply (factor_paced_schedule 3 0.5%float 1e-8%float); [reflexivity|]. cbn. lia.
Defined.

Lemma factor_run_decayed (s : FactorScheduler.t) (ns : list Z) :
  1 <= FactorScheduler.step s ->
  forall k0 : nat,
  exists k : nat,
    (k0 <= k <= k0 + List.length ns)%nat /\
    snd (run FactorScheduler.call (factor_after_decays s k0) ns) = factor_after_decays s k /\
    (k = k0 \/
     exists n, In n ns /\
               FactorScheduler.count s + FactorScheduler.step s * Z.of_nat k < n).
Proof.
  intros Hs. induction ns as [|n ns IH]; intros k0.
  - exists k0. cbn. split; [lia|]. split; [reflexivity|now left].
  - cbn [run List.length].
    destruct (Z.lt_ge_cases (FactorScheduler.count s
                + FactorScheduler.step s * Z.of_nat k0 + FactorScheduler.step s) n)
      as [Hlt|Hge].
    + rewrite (factor_after_decays_S s k0 n Hlt).
      destruct (IH (S k0)) as (k & Hk & Hrun & Hwhy).
      destruct (run FactorScheduler.call (factor_after_decays s (S k0)) ns) as [rs s2].
      cbn [snd] in *. exists k. split; [lia|]. split; [assumption|]. right.
      destruct Hwhy as [->|(m & Hin & Hm)].
      * exists n. split; [now left|]. lia.
      * exists m. split; [now right|assumption].
    + rewrite (factor_after_decays_settled s k0 n) by lia.
      destruct (IH k0) as (k & Hk & Hrun & Hwhy).
      destruct (run FactorScheduler.call (factor_after_decays s k0) ns) as [rs s2].
      cbn [snd] in *. exists k. split; [lia|]. split; [assumption|].
      destruct Hwhy as [->|(m & Hin & Hm)]; [now left|right].
      exists m. split; [now right|assumption].
Qed.

(** X3: whatever the calls, a [FactorScheduler] is its initial self after
    some number [k] of decays: [count] is [step * k], [base_lr] is the initial
    rate decayed [k] times, [k] is at most the number of calls, and, unless
    [k] is zero, [count] is below one of the values of [num_update] passed:
    the counter never runs ahead of the updates. *)
Theorem factor_count_and_rate_move_together
  (step : Z) (factor L : float) (s0 : FactorScheduler.t) (ns : list Z) :
  FactorScheduler.init step factor L = Ok s0 ->
  exists k : nat,
    (k <= List.length ns)%nat /\
    FactorScheduler.count (snd (run FactorScheduler.call s0 ns)) = step * Z.of_nat k /\
    FactorScheduler.base_lr (snd (run FactorScheduler.call s0 ns))
      = Nat.iter k (factor_decay factor L) 0.01%float /\
    (k = 0%nat \/ exists n, In n ns /\ step * Z.of_nat k < n).
Proof.
  intros Hinit. destruct (factor_init_ok _ _ _ _ Hinit) as (-> & Hstep & _).
  match goal with |- context [run _ ?s _] => set (s0 := s) end.
  destruct (factor_run_decayed s0 ns Hstep 0) as (k & Hk & Hrun & Hwhy).
  rewrite factor_after_decays_0 in Hrun. exists k. rewrite Hrun.
  split; [lia|]. split; [reflexivity|]. split; [reflexivity|exact Hwhy].
Qed.

Lemma factor_count_and_rate_move_together_witness :
  exists k : nat,
    (k <= List.length ([0; 9; 2; 9]%Z : list Z))%nat /\
    FactorScheduler.count
      (snd (run FactorScheduler.call
              {| FactorScheduler.base_lr := 0.01%float;
                 FactorScheduler.step := 3;
                 FactorScheduler.factor := 0.5%float;
                 FactorScheduler.stop_factor_lr := 1e-8%float;
                 FactorScheduler.count := 0 |} [0; 9; 2; 9])) = 3 * Z.of_nat k /\
    FactorScheduler.base_lr
      (snd (run FactorScheduler.call
              {| FactorScheduler.base_lr := 0.01%float;
                 FactorScheduler.step := 3;
                 FactorScheduler.factor := 0.5%float;
                 FactorScheduler.stop_factor_lr := 1e-8%float;
                 FactorScheduler.count := 0 |} [0; 9; 2; 9]))
      = Nat.iter k (factor_decay 0.5 1e-8) 0.01%float /\
    (k = 0%nat \/ exists n, In n [0; 9; 2; 9] /\ 3 * Z.of_nat k < n).
Proof.
  apply (factor_count_and_rate_move_together 3 0.5%float 1e-8%float). reflexivity.
Defined.

(** ** MultiFactorScheduler: the schedule *)

Lemma multi_after_call (steps : list Z) (f : float) (k : nat) (n : Z) :
  MultiFactorScheduler.call (multi_after steps f k) n =
  if (k <? List.length steps)%nat && (nth k steps 0 <? n)
  then (Ok (MultiFactorScheduler.base_lr (multi_after steps f (S k))),
        multi_after steps f (S k))
  else (Ok (MultiFactorScheduler.base_lr (multi_after steps f k)), multi_after steps f k).
Proof.
  unfold MultiFactorScheduler.call.
  cbn [multi_after MultiFactorScheduler.cur_step_ind MultiFactorScheduler.step].
  destruct (Nat.ltb_spec k (List.length steps)) as [Hin|Hout]; cbn [andb].
  - destruct (Z.leb_spec (Z.of_nat k) (Z.of_nat (List.length steps) - 1)); [|lia].
    rewrite list_getitem_in_range by lia. rewrite Nat2Z.id.
    destruct (nth k steps 0 <? n); [|reflexivity].
    unfold multi_after. cbn [MultiFactorScheduler.base_lr MultiFactorScheduler.factor
                               Nat.iter nat_rect].
    now rewrite Nat2Z.inj_succ.
  - destruct (Z.leb_spec (Z.of_nat k) (Z.of_nat (List.length steps) - 1)); [lia|].
    reflexivity.
Qed.

Lemma multi_run_after (steps : list Z) (f : float) (ns : list Z) :
  forall k0 : nat,
  exists (k : nat) (rs : list float),
    (k0 <= k <= k0 + List.length ns)%nat /\
    (k <= Nat.max k0 (List.length steps))%nat /\
    run MultiFactorScheduler.call (multi_after steps f k0) ns
      = (map Ok rs, multi_after steps f k) /\
    (k = k0 \/ exists n, In n ns /\ nth (pred k) steps 0 < n).
Proof.
  induction ns as [|n ns IH]; intros k0.
  - exists k0, []. cbn. split; [lia|]. split; [lia|]. split; [reflexivity|now left].
  - cbn [run List.length]. rewrite multi_after_call.
    destruct (Nat.ltb_spec k0 (List.length steps)) as [Hin|Hout]; cbn [andb].
    + destruct (Z.ltb_spec (nth k0 steps 0) n) as [Hlt|Hge].
      * destruct (IH (S k0)) as (k & rs & Hk & Hmax & Hrun & Hwhy). rewrite Hrun.
        exists k, (MultiFactorScheduler.base_lr (multi_after steps f (S k0)) :: rs).
        split; [lia|]. split; [lia|]. split; [reflexivity|]. right.
        destruct Hwhy as [->|(m & Hin' & Hm)].
        -- exists n. split; [now left|assumption].
        -- exists m. split; [now right|assumption].
      * destruct (IH k0) as (k & rs & Hk & Hmax & Hrun & Hwhy). rewrite Hrun.
        exists k, (MultiFactorScheduler.base_lr (multi_after steps f k0) :: rs).
        split; [lia|]. split; [lia|]. split; [reflexivity|].
        destruct Hwhy as [->|(m & Hin' & Hm)]; [now left|right].
        exists m. split; [now right|assumption].
    + destruct (IH k0) as (k & rs & Hk & Hmax & Hrun & Hwhy). rewrite Hrun.
      exists k, (MultiFactorScheduler.base_lr (multi_after steps f k0) :: rs).
      split; [lia|]. split; [lia|]. split; [reflexivity|].
      destruct Hwhy as [->|(m & Hin' & Hm)]; [now left|right].
      exists m. split; [now right|assumption].
Qed.

(** X4: whatever the calls, no call on a constructed [MultiFactorScheduler]
    raises (the index into the milestones stays in range), and the scheduler
    is its initial self with its first [k] milestones consumed: [base_lr] is
    the initial rate times the factor [k] times, [count] is the last consumed
    milestone, [k] is at most the number of calls and of milestones, and the
    last consumed milestone is below one of the values of [num_update]
    passed. *)
Theorem multi_consumes_milestones_in_order
  (steps : list Z) (factor : float) (s0 : MultiFactorScheduler.t) (ns : list Z) :
  MultiFactorScheduler.init steps factor = Ok s0 ->
  exists (k : nat) (rs : list float),
    (k <= List.length ns)%nat /\ (k <= List.length steps)%nat /\
    run MultiFactorScheduler.call s0 ns = (map Ok rs, multi_after steps factor k) /\
    (k = 0%nat \/ exists n, In n ns /\ nth (pred k) steps 0 < n).
Proof.
  intros Hinit. destruct (multi_init_ok _ _ _ Hinit) as (-> & _ & _ & _).
  destruct (multi_run_after steps factor ns 0) as (k & rs & Hk & Hmax & Hrun & Hwhy).
  exists k, rs. split; [lia|]. split; [lia|]. split; [exact Hrun|exact Hwhy].
Qed.

Lemma multi_consumes_milestones_in_order_witness :
  exists (k : nat) (rs : list float),
    (k <= List.length ([0; 30; 7; 30]%Z : list Z))%nat /\
    (k <= List.length ([5; 10; 20]%Z : list Z))%nat /\
    run MultiFactorScheduler.call
      {| MultiFactorScheduler.base_lr := 0.01%float;
         MultiFactorScheduler.step := [5; 10; 20];
         MultiFactorScheduler.cur_step_ind := 0;
         MultiFactorScheduler.factor := 0.1%float;
         MultiFactorScheduler.count := 0 |} [0; 30; 7; 30]
      = (map Ok rs, multi_after [5; 10; 20] 0.1 k) /\
    (k = 0%nat \/ exists n, In n [0; 30; 7; 30] /\ nth (pred k) [5; 10; 20] 0 < n).
Proof.
  apply (multi_consumes_milestones_in_order [5; 10; 20] 0.1%float). reflexivity.
Defined.

Lemma strictly_increasing_tail (a : Z) (l : list Z) :
  strictly_increasing (a :: l) = true -> strictly_increasing l = true.
Proof.
  destruct l as [|b l]; [reflexivity|]. cbn [strictly_increasing].
  intros H. now apply andb_prop in H.
Qed.

Lemma strictly_increasing_head (a : Z) (l : list Z) :
  strictly_increasing (a :: l) = true -> forall x, In x l -> a < x.
Proof.
  revert a. induction l as [|b l IH]; intros a H x Hin; [destruct Hin|].
  cbn [strictly_increasing] in H. apply andb_prop in H as [Hab Hs].
  apply Z.ltb_lt in Hab. destruct Hin as [<-|Hin]; [assumption|].
  specialize (IH b Hs x Hin). lia.
Qed.

Lemma count_below_none (n : Z) (l : list Z) :
  (forall x, In x l -> n <= x) -> count_below n l = 0%nat.
Proof.
  unfold count_below. induction l as [|a l IH]; intros H; [reflexivity|].
  cbn [filter]. destruct (Z.ltb_spec a n) as [Hlt|_].
  - specialize (H a (or_introl eq_refl)). lia.
  - apply IH. intros x Hx. apply H. now right.
Qed.

(** In a strictly increasing list the milestones below [n] are the first
    ones. *)
Lemma count_below_spec (n : Z) (l : list Z) (i : nat) :
  strictly_increasing l = true ->
  ((i < count_below n l)%nat <-> (i < List.length l)%nat /\ nth i l 0 < n).
Proof.
  revert i. induction l as [|a l IH]; intros i Hs.
  - cbn. split; [lia|]. intros [H _]. lia.
  - pose proof (strictly_increasing_tail a l Hs) as Hs'.
    pose proof (strictly_increasing_head a l Hs) as Hhead.
    unfold count_below in *. cbn [filter].
    destruct (Z.ltb_spec a n) as [Hlt|Hge]; cbn [List.length].
    + destruct i as [|i]; cbn [nth].
      * split; [intros _; split; [lia|assumption]|lia].
      * rewrite <- Nat.succ_lt_mono, (IH i Hs'). lia.
    + fold (count_below n l). rewrite (count_below_none n l).
      2: { intros x Hx. specialize (Hhead x Hx). lia. }
      split; [lia|]. intros [Hi Hn]. exfalso.
      destruct i as [|i]; cbn [nth] in Hn; [lia|].
      assert (Hin : In (nth i l 0) l) by (apply nth_In; lia).
      specialize (Hhead _ Hin). lia.
Qed.

Lemma count_below_paced (prev n : Z) (l : list Z) :
  strictly_increasing l = true -> prev <= n <= prev + 1 ->
  count_below n l =
  if (count_below prev l <? List.length l)%nat && (nth (count_below prev l) l 0 <? n)
  then S (count_below prev l)
  else count_below prev l.
Proof.
  intros Hs Hn.
  pose proof (fun i => count_below_spec prev l i Hs) as Sp.
  pose proof (fun i => count_below_spec n l i Hs) as Sn.
  set (k := count_below prev l) in *. set (k' := count_below n l) in *.
  assert (Hge : (k <= k')%nat).
  { destruct (Nat.le_gt_cases k k') as [|Hlt]; [assumption|].
    apply Sp in Hlt. assert (k' < k')%nat by (apply Sn; lia). lia. }
  assert (Hle : (k' <= S k)%nat).
  { destruct (Nat.le_gt_cases k' (S k)) as [|Hgt]; [assumption|].
    apply Sn in Hgt. destruct Hgt as [Hlen Hlt].
    pose proof (strictly_increasing_next l k Hs Hlen).
    assert (k < k)%nat by (apply Sp; lia). lia. }
  destruct (Nat.ltb_spec k (List.length l)) as [Hin|Hout]; cbn [andb].
  - destruct (Z.ltb_spec (nth k l 0) n) as [Hlt|Hnlt].
    + assert (k < k')%nat by (apply Sn; lia). lia.
    + destruct (Nat.eq_dec k' k) as [|Hne]; [assumption|].
      assert (Hk : (k < k')%nat) by lia. apply Sn in Hk. lia.
  - destruct (Nat.eq_dec k' k) as [|Hne]; [assumption|].
    assert (Hk : (k < k')%nat) by lia. apply Sn in Hk. lia.
Qed.

Lemma last_cons_default (n m : Z) (ns : list Z) (d : Z) :
  last (n :: m :: ns) d = last (m :: ns) n.
Proof.
  cbn [last]. revert m. induction ns as [|a ns IH]; intros m; [reflexivity|]. apply IH.
Qed.

Lemma multi_paced_run (steps : list Z) (f : float) (ns : list Z) :
  strictly_increasing steps = true ->
  forall prev,
    unit_paced prev ns ->
    run MultiFactorScheduler.call (multi_after steps f (count_below prev steps)) ns =
    (map (fun n => Ok (MultiFactorScheduler.base_lr
                         (multi_after steps f (count_below n steps)))) ns,
     multi_after steps f (count_below (last ns prev) steps)).
Proof.
  intros Hs. induction ns as [|n ns IH]; intros prev Hp; [reflexivity|].
  destruct Hp as [Hn Hp]. cbn [run map].
  rewrite multi_after_call, (count_below_paced prev n steps Hs Hn).
  assert (Hlast : last (n :: ns) prev = last ns n)
    by (destruct ns as [|m ns]; [reflexivity|apply last_cons_default]).
  rewrite Hlast.
  destruct ((count_below prev steps <? List.length steps)%nat
            && (nth (count_below prev steps) steps 0 <? n)) eqn:Hc.
  - pose proof (count_below_paced prev n steps Hs Hn) as E. rewrite Hc in E.
    rewrite <- E, (IH n Hp). reflexivity.
  - pose proof (count_below_paced prev n steps Hs Hn) as E. rewrite Hc in E.
    rewrite <- E, (IH n Hp). reflexivity.
Qed.

(** X5: when [num_update] starts at 0 or 1 and never rises by more than one
    per call, the rate a constructed [MultiFactorScheduler] returns at
    [num_update] is the initial rate times the factor once for each milestone
    strictly below [num_update] (a milestone equal to [num_update] does not
    count yet, unlike in the docstring), and [cur_step_ind] ends at the number
    of milestones below the last [num_update]. *)
Theorem multi_paced_schedule
  (steps : list Z) (factor : float) (s0 : MultiFactorScheduler.t) (ns : list Z) :
  MultiFactorScheduler.init steps factor = Ok s0 ->
  unit_paced 0 ns ->
  run MultiFactorScheduler.call s0 ns =
  (map (fun n => Ok (Nat.iter (count_below n steps) (fun b => (b * factor)%float)
                       0.01%float)) ns,
   multi_after steps factor (count_below (last ns 0) steps)).
Proof.
  intros Hinit Hp. destruct (multi_init_ok _ _ _ Hinit) as (-> & _ & Hchk & _).
  destruct (strictly_increasing_first_positive _ Hchk) as [Hinc Hpos].
  pose proof (multi_paced_run steps factor ns Hinc 0 Hp) as H.
  rewrite (count_below_none 0 steps) in H; [exact H|].
  intros x Hx. destruct (Z.le_gt_cases 0 x) as [|Hneg]; [assumption|exfalso].
  assert (Hex : existsb (fun m => m <? 1) steps = true)
    by (apply existsb_exists; exists x; split; [assumption|apply Z.ltb_lt; lia]).
  congruence.
Qed.

Lemma multi_paced_schedule_witness :
  run MultiFactorScheduler.call
    {| MultiFactorScheduler.base_lr := 0.01%float;
       MultiFactorScheduler.step := [2; 3; 6];
       MultiFactorScheduler.cur_step_ind := 0;
       MultiFactorScheduler.factor := 0.5%float;
       MultiFactorScheduler.count := 0 |} [1; 2; 3; 3; 4; 5; 6; 7] =
  ([Ok 0.01; Ok 0.01; Ok 0.005; Ok 0.005; Ok 0.0025; Ok 0.0025; Ok 0.0025; Ok 0.00125]%float,
   {| MultiFactorScheduler.base_lr := 0.00125%float;
      MultiFactorScheduler.step := [2; 3; 6];
      MultiFactorScheduler.cur_step_ind := 3;
      MultiFactorScheduler.factor := 0.5%float;
      MultiFactorScheduler.count := 6 |}).
Proof.
  apply (multi_paced_schedule [2; 3; 6] 0.5%float); [reflexivity|]. cbn. lia.
Defined.

Lemma multi_run_chain (steps : list Z) (f : float) (ns : list Z) :
  forall k0 : nat,
  exists ks : list nat,
    slow_chain k0 ks /\ List.length ks = List.length ns /\
    fst (run MultiFactorScheduler.call (multi_after steps f k0) ns)
      = map (fun k => Ok (MultiFactorScheduler.base_lr (multi_after steps f k))) ks.
Proof.
  induction ns as [|n ns IH]; intros k0; [now exists []|].
  cbn [run]. rewrite multi_after_call.
  destruct ((k0 <? List.length steps)%nat && (nth k0 steps 0 <? n)).
  - destruct (IH (S k0)) as (ks & Hch & Hlen & Hrun).
    destruct (run MultiFactorScheduler.call (multi_after steps f (S k0)) ns) as [rs s2].
    cbn [fst] in *. exists (S k0 :: ks). split; [split; [now right|assumption]|].
    cbn [map List.length]. split; [now rewrite Hlen|now rewrite Hrun].
  - destruct (IH k0) as (ks & Hch & Hlen & Hrun).
    destruct (run MultiFactorScheduler.call (multi_after steps f k0) ns) as [rs s2].
    cbn [fst] in *. exists (k0 :: ks). split; [split; [now left|assumption]|].
    cbn [map List.length]. split; [now rewrite Hlen|now rewrite Hrun].
Qed.

Lemma iter_mul_shrinks (f : float) (k : nat) :
  (0 <=? f)%float = true -> (f <=? 1)%float = true ->
  finite_nonneg (Prim2SF (Nat.iter k (fun b => (b * f)%float) 0.01%float)) = true /\
  (Nat.iter (S k) (fun b => (b * f)%float) 0.01%float
     <=? Nat.iter k (fun b => (b * f)%float) 0.01%float)%float = true.
Proof.
  intros H0 H1. induction k as [|k [IHfin IHle]].
  - split; [reflexivity|]. cbn [Nat.iter nat_rect].
    now apply float_mul_shrinks.
  - cbn [Nat.iter nat_rect] in *.
    destruct (float_mul_shrinks _ f IHfin H0 H1) as [Hfin Hle].
    split; [assumption|]. now apply float_mul_shrinks.
Qed.

Lemma slow_chain_rates (f : float) (steps : list Z) (ks : list nat) :
  (0 <=? f)%float = true -> (f <=? 1)%float = true ->
  forall k0,
    slow_chain k0 ks ->
    rates_non_increasing
      (map (fun k => MultiFactorScheduler.base_lr (multi_after steps f k)) (k0 :: ks)) = true.
Proof.
  intros H0 H1. induction ks as [|k ks IH]; intros k0 Hch; [reflexivity|].
  destruct Hch as [Hk Hch]. specialize (IH k Hch).
  cbn [map] in *.
  change (((MultiFactorScheduler.base_lr (multi_after steps f k)
              <=? MultiFactorScheduler.base_lr (multi_after steps f k0))%float
           && rates_non_increasing
                (MultiFactorScheduler.base_lr (multi_after steps f k)
                 :: map (fun k => MultiFactorScheduler.base_lr (multi_after steps f k)) ks))
          = true).
  rewrite IH, andb_true_r.
  cbn [multi_after MultiFactorScheduler.base_lr].
  destruct Hk as [->| ->].
  - apply float_leb_refl, finite_nonneg_not_nan. now apply iter_mul_shrinks.
  - now apply iter_mul_shrinks.
Qed.

(** X6: for a [MultiFactorScheduler] constructed with [0 <= factor <= 1.0],
    whatever the calls, the rates returned never increase from one call to
    the next (and no call raises). *)
Theorem multi_rates_non_increasing
  (steps : list Z) (factor : float) (s0 : MultiFactorScheduler.t) (ns : list Z) :
  MultiFactorScheduler.init steps factor = Ok s0 ->
  (0 <=? factor)%float = true ->
  exists rs : list float,
    fst (run MultiFactorScheduler.call s0 ns) = map Ok rs /\
    rates_non_increasing rs = true.
Proof.
  intros Hinit H0. destruct (multi_init_ok _ _ _ Hinit) as (-> & _ & _ & Hf1).
  assert (H1 : (factor <=? 1)%float = true).
  { apply float_ltb_false_leb; [reflexivity| |assumption].
    now destruct (float_leb_not_nan _ _ H0). }
  destruct (multi_run_chain steps factor ns 0) as (ks & Hch & _ & Hrun).
  exists (map (fun k => MultiFactorScheduler.base_lr (multi_after steps factor k)) ks).
  split.
  - etransitivity; [exact Hrun|]. now rewrite map_map.
  - pose proof (slow_chain_rates factor steps ks H0 H1 0 Hch) as H.
    now apply rates_non_increasing_tail in H.
Qed.

Lemma multi_rates_non_increasing_witness :
  exists rs : list float,
    fst (run MultiFactorScheduler.call
           {| MultiFactorScheduler.base_lr := 0.01%float;
              MultiFactorScheduler.step := [5; 10; 20];
              MultiFactorScheduler.cur_step_ind := 0;
              MultiFactorScheduler.factor := 0.3%float;
              MultiFactorScheduler.count := 0 |} [3; 50; 1; 50; 50; 50]) = map Ok rs /\
    rates_non_increasing rs = true.
Proof.
  apply (multi_rates_non_increasing [5; 10; 20] 0.3%float); reflexivity.
Defined.

(** ** Special factors *)

Lemma SFleb_not_ltb (x y : spec_float) : SFleb x y = true -> SFltb y x = false.
Proof.
  unfold SFleb, SFltb. rewrite (SFcompare_antisym x y).
  now destruct (SFcompare x y) as [[| |]|].
Qed.

Lemma float_leb_not_ltb (x y : float) :
  (x <=? y)%float = true -> (y <? x)%float = false.
Proof. rewrite leb_spec, ltb_spec. apply SFleb_not_ltb. Qed.

Lemma factor_unit_call (s : FactorScheduler.t) (n : Z) :
  FactorScheduler.base_lr s = 0.01%float ->
  FactorScheduler.factor s = 1%float ->
  (FactorScheduler.stop_factor_lr s <=? 0.01)%float = true ->
  fst (FactorScheduler.call s n) = 0.01%float /\
  FactorScheduler.base_lr (snd (FactorScheduler.call s n)) = 0.01%float /\
  FactorScheduler.factor (snd (FactorScheduler.call s n)) = 1%float /\
  FactorScheduler.stop_factor_lr (snd (FactorScheduler.call s n))
    = FactorScheduler.stop_factor_lr s.
Proof.
  intros Hb Hf HL. unfold FactorScheduler.call.
  destruct (FactorScheduler.count s + FactorScheduler.step s <? n); cbn [fst snd].
  - rewrite Hb, Hf. change (0.01 * 1)%float with 0.01%float.
    rewrite (float_leb_not_ltb _ _ HL). now cbn.
  - now repeat split.
Qed.

Lemma factor_unit_run (ns : list Z) (s : FactorScheduler.t) :
  FactorScheduler.base_lr s = 0.01%float ->
  FactorScheduler.factor s = 1%float ->
  (FactorScheduler.stop_factor_lr s <=? 0.01)%float = true ->
  fst (run FactorScheduler.call s ns) = repeat 0.01%float (List.length ns).
Proof.
  revert s. induction ns as [|n ns IH]; intros s Hb Hf HL; [reflexivity|].
  destruct (factor_unit_call s n Hb Hf HL) as (Hr & Hb' & Hf' & HL').
  cbn [run]. destruct (FactorScheduler.call s n) as [r s1]. cbn [fst snd] in *.
  rewrite <- HL' in HL. specialize (IH s1 Hb' Hf' HL).
  destruct (run FactorScheduler.call s1 ns) as [rs s2]. cbn [fst] in *.
  cbn [List.length repeat]. now rewrite Hr, IH.
Qed.

Lemma iter_mul_one (k : nat) :
  Nat.iter k (fun b => (b * 1)%float) 0.01%float = 0.01%float.
Proof.
  induction k as [|k IH]; [reflexivity|].
  change ((Nat.iter k (fun b => (b * 1)%float) 0.01 * 1)%float = 0.01%float).
  now rewrite IH.
Qed.

(** X7: with the default factor 1 the schedulers schedule nothing: whatever
    the calls, a [MultiFactorScheduler] returns the initial rate 0.01 at every
    call, and so does a [FactorScheduler] whose floor is at most 0.01. *)
Theorem unit_factor_keeps_initial_rate :
  (forall step L s0 ns,
      FactorScheduler.init step 1 L = Ok s0 ->
      (L <=? 0.01)%float = true ->
      fst (run FactorScheduler.call s0 ns) = repeat 0.01%float (List.length ns)) /\
  (forall steps s0 ns,
      MultiFactorScheduler.init steps 1 = Ok s0 ->
      fst (run MultiFactorScheduler.call s0 ns) = repeat (Ok 0.01%float) (List.length ns)).
Proof.
  split.
  - intros step L s0 ns Hinit HL.
    destruct (factor_init_ok _ _ _ _ Hinit) as (-> & _ & _).
    now apply factor_unit_run.
  - intros steps s0 ns Hinit.
    destruct (multi_init_ok _ _ _ Hinit) as (-> & _ & _ & _).
    destruct (multi_run_chain steps 1%float ns 0) as (ks & _ & Hlen & Hrun).
    etransitivity; [exact Hrun|]. rewrite <- Hlen. clear.
    induction ks as [|k ks IH]; [reflexivity|].
    cbn [map List.length repeat]. rewrite IH.
    cbn [multi_after MultiFactorScheduler.base_lr]. now rewrite iter_mul_one.
Qed.

Lemma unit_factor_keeps_initial_rate_witness :
  fst (run FactorScheduler.call
         {| FactorScheduler.base_lr := 0.01%float;
            FactorScheduler.step := 2;
            FactorScheduler.factor := 1%float;
            FactorScheduler.stop_factor_lr := 1e-8%float;
            FactorScheduler.count := 0 |} [0; 5; 9; 100])
    = repeat 0.01%float (List.length ([0; 5; 9; 100]%Z : list Z)) /\
  fst (run MultiFactorScheduler.call
         {| MultiFactorScheduler.base_lr := 0.01%float;
            MultiFactorScheduler.step := [5; 10];
            MultiFactorScheduler.cur_step_ind := 0;
            MultiFactorScheduler.factor := 1%float;
            MultiFactorScheduler.count := 0 |} [0; 7; 20; 30])
    = repeat (Ok 0.01%float) (List.length ([0; 7; 20; 30]%Z : list Z)).
Proof.
  destruct unit_factor_keeps_initial_rate as [HF HM]. split.
  - apply (HF 2 1e-8%float); reflexivity.
  - apply (HM [5; 10]). reflexivity.
Defined.

Lemma Prim2SF_nan : Prim2SF nan = S754_nan.
Proof. reflexivity. Qed.

Lemma float_mul_nan_l (x : float) : (nan * x)%float = nan.
Proof.
  apply Prim2SF_inj. rewrite mul_spec, Prim2SF_nan. reflexivity.
Qed.

Lemma float_mul_nan_r (x : float) : (x * nan)%float = nan.
Proof.
  apply Prim2SF_inj. rewrite mul_spec, Prim2SF_nan. now destruct (Prim2SF x).
Qed.

Lemma float_nan_ltb (x : float) : (nan <? x)%float = false.
Proof. rewrite ltb_spec, Prim2SF_nan. reflexivity. Qed.

Lemma factor_nan_call (s : FactorScheduler.t) (n : Z) :
  FactorScheduler.base_lr s = nan ->
  fst (FactorScheduler.call s n) = nan /\
  FactorScheduler.base_lr (snd (FactorScheduler.call s n)) = nan.
Proof.
  intros Hb. unfold FactorScheduler.call.
  destruct (FactorScheduler.count s + FactorScheduler.step s <? n);
    cbn [fst snd FactorScheduler.base_lr].
  - rewrite Hb, float_mul_nan_l, float_nan_ltb. now split.
  - now split.
Qed.

Lemma factor_nan_run (ns : list Z) (s : FactorScheduler.t) :
  FactorScheduler.base_lr s = nan ->
  fst (run FactorScheduler.call s ns) = repeat nan (List.length ns).
Proof.
  revert s. induction ns as [|n ns IH]; intros s Hb; [reflexivity|].
  destruct (factor_nan_call s n Hb) as [Hr Hb'].
  cbn [run]. destruct (FactorScheduler.call s n) as [r s1]. cbn [fst snd] in *.
  specialize (IH s1 Hb').
  destruct (run FactorScheduler.call s1 ns) as [rs s2]. cbn [fst] in *.
  cbn [List.length repeat]. now rewrite Hr, IH.
Qed.

(** X8: the range checks of the constructors let NaN through ([nan > 1.0] and
    [nan < 0.0] are false), and the floor does not stop it: a decaying call of
    a [FactorScheduler] whose factor is NaN returns NaN, and once [base_lr] is
    NaN every call returns NaN, whatever the factor and the floor. *)
Theorem nan_passes_the_checks_and_stays :
  (forall step L, 1 <= step -> is_raise (FactorScheduler.init step nan L) = false) /\
  (forall total_update, is_raise (PolyScheduler.init total_update nan) = false) /\
  (forall s n,
      FactorScheduler.factor s = nan ->
      FactorScheduler.count s + FactorScheduler.step s < n ->
      fst (FactorScheduler.call s n) = nan /\
      FactorScheduler.base_lr (snd (FactorScheduler.call s n)) = nan) /\
  (forall s ns,
      FactorScheduler.base_lr s = nan ->
      fst (run FactorScheduler.call s ns) = repeat nan (List.length ns)).
Proof.
  split; [|split; [|split]].
  - intros step L Hstep. unfold FactorScheduler.init.
    destruct (Z.ltb_spec step 1); [lia|reflexivity].
  - intros total_update. reflexivity.
  - intros s n Hf Hn. unfold FactorScheduler.call.
    destruct (Z.ltb_spec (FactorScheduler.count s + FactorScheduler.step s) n); [|lia].
    cbn [fst snd FactorScheduler.base_lr].
    rewrite Hf, float_mul_nan_r, float_nan_ltb. now split.
  - intros s ns. apply factor_nan_run.
Qed.

Lemma nan_passes_the_checks_and_stays_witness :
  is_raise (FactorScheduler.init 4 nan 1e-8) = false /\
  fst (FactorScheduler.call
         {| FactorScheduler.base_lr := 0.01%float;
            FactorScheduler.step := 4;
            FactorScheduler.factor := nan;
            FactorScheduler.stop_factor_lr := 1e-8%float;
            FactorScheduler.count := 0 |} 5) = nan /\
  fst (run FactorScheduler.call
         {| FactorScheduler.base_lr := nan;
            FactorScheduler.step := 4;
            FactorScheduler.factor := 0.5%float;
            FactorScheduler.stop_factor_lr := 1e-8%float;
            FactorScheduler.count := 4 |} [6; 9; 20])
    = repeat nan (List.length ([6; 9; 20]%Z : list Z)).
Proof.
  destruct nan_passes_the_checks_and_stays as (Hinit & _ & Hcall & Hrun).
  split; [apply Hinit; lia|]. split.
  - apply Hcall; [reflexivity|cbn; lia].
  - apply Hrun. reflexivity.
Defined.

(** ** FactorScheduler at the floor *)

Lemma SFeqb_compare_r (p b L : spec_float) :
  SFeqb b L = true -> SFcompare p b = SFcompare p L.
Proof.
  unfold SFeqb.
  destruct b as [sb|sb| |sb mb eb], L as [sl|sl| |sl ml el];
    try discriminate; try destruct sb; try destruct sl; try discriminate;
    intros H; try (now destruct p);
    cbn [SFcompare] in H;
    destruct (Z.compare_spec eb el) as [E|E|E]; try discriminate H; subst el;
    change (Pos.compare_cont Eq mb ml) with (Pos.compare mb ml) in H;
    destruct (Pos.compare_spec mb ml) as [M|M|M]; try discriminate H; now subst ml.
Qed.

Lemma SFeqb_finite_nonneg (b L : spec_float) :
  SFeqb b L = true -> finite_nonneg b = true -> finite_nonneg L = true.
Proof.
  destruct b as [sb|sb| |sb mb eb], L as [sl|sl| |sl ml el];
    try discriminate; try reflexivity; destruct sb, sl; try discriminate; reflexivity.
Qed.

Lemma SFeqb_refl (x : spec_float) : not_nan x = true -> SFeqb x x = true.
Proof.
  intros H. pose proof (SFleb_refl x H) as Hle. pose proof (SFleb_not_ltb x x Hle) as Hlt.
  unfold SFleb, SFltb, SFeqb in *. now destruct (SFcompare x x) as [[| |]|].
Qed.

(** Below or equal, equal to the floor, and not below the floor: equal. *)
Lemma SF_pinned (p b L : spec_float) :
  SFleb p b = true -> SFeqb b L = true -> SFltb p L = false -> SFeqb p L = true.
Proof.
  intros Hle Heq Hlt. unfold SFleb, SFltb, SFeqb in *.
  rewrite (SFeqb_compare_r p b L Heq) in Hle.
  now destruct (SFcompare p L) as [[| |]|].
Qed.

Lemma Prim2SF_infinity : Prim2SF infinity = S754_infinity false.
Proof. reflexivity. Qed.

Lemma float_finite_nonneg (x : float) :
  (0 <=? x)%float = true -> (x <? infinity)%float = true ->
  finite_nonneg (Prim2SF x) = true.
Proof.
  rewrite leb_spec, ltb_spec, Prim2SF_zero, Prim2SF_infinity.
  destruct (Prim2SF x) as [s|s| |s m e]; try destruct s; try reflexivity;
    cbn; congruence.
Qed.

Lemma factor_pinned_call (f L : float) (s : FactorScheduler.t) (n : Z) :
  (0 <=? f)%float = true -> (f <=? 1)%float = true ->
  factor_pinned_inv f L s ->
  factor_pinned_inv f L (snd (FactorScheduler.call s n)) /\
  (fst (FactorScheduler.call s n) =? L)%float = true.
Proof.
  intros H0 H1 (Hf & HL & Hfin & Heq). unfold FactorScheduler.call.
  destruct (FactorScheduler.count s + FactorScheduler.step s <? n); cbn [fst snd].
  - rewrite Hf, HL.
    destruct (float_mul_shrinks (FactorScheduler.base_lr s) f Hfin H0 H1) as [Hpfin Hple].
    assert (HLfin : finite_nonneg (Prim2SF L) = true).
    { rewrite eqb_spec in Heq. exact (SFeqb_finite_nonneg _ _ Heq Hfin). }
    assert (HLL : (L =? L)%float = true).
    { rewrite eqb_spec. apply SFeqb_refl. now apply finite_nonneg_not_nan. }
    destruct (FactorScheduler.base_lr s * f <? L)%float eqn:Hlt;
      unfold factor_pinned_inv;
      cbn [FactorScheduler.base_lr FactorScheduler.factor FactorScheduler.stop_factor_lr].
    + repeat split; assumption.
    + assert (Hp : (FactorScheduler.base_lr s * f =? L)%float = true).
      { rewrite eqb_spec. rewrite leb_spec in Hple. rewrite eqb_spec in Heq.
        rewrite ltb_spec in Hlt. exact (SF_pinned _ _ _ Hple Heq Hlt). }
      repeat split; assumption.
  - split; [repeat split; assumption|assumption].
Qed.

Lemma factor_pinned_run (f L : float) (ns : list Z) (s : FactorScheduler.t) :
  (0 <=? f)%float = true -> (f <=? 1)%float = true ->
  factor_pinned_inv f L s ->
  forallb (fun r => (r =? L)%float) (fst (run FactorScheduler.call s ns)) = true.
Proof.
  intros H0 H1. revert s. induction ns as [|n ns IH]; intros s Hs; [reflexivity|].
  destruct (factor_pinned_call f L s n H0 H1 Hs) as [Hs1 Hr].
  cbn [run]. destruct (FactorScheduler.call s n) as [r s1]. cbn [fst snd] in *.
  specialize (IH s1 Hs1).
  destruct (run FactorScheduler.call s1 ns) as [rs s2]. cbn [fst] in *.
  cbn [forallb]. now rewrite Hr, IH.
Qed.

(** X9: the log message of the clamp is right for a factor between 0 and 1:
    once [base_lr] equals a finite floor [stop_factor_lr >= 0], every later
    call returns a rate that compares equal to the floor, whatever the
    calls. *)
Theorem factor_stays_at_floor (s : FactorScheduler.t) (ns : list Z) :
  (0 <=? FactorScheduler.factor s)%float = true ->
  (FactorScheduler.factor s <=? 1)%float = true ->
  (0 <=? FactorScheduler.stop_factor_lr s)%float = true ->
  (FactorScheduler.stop_factor_lr s <? infinity)%float = true ->
  FactorScheduler.base_lr s = FactorScheduler.stop_factor_lr s ->
  forallb (fun r => (r =? FactorScheduler.stop_factor_lr s)%float)
          (fst (run FactorScheduler.call s ns)) = true.
Proof.
  intros H0 H1 HL0 HLinf Hb.
  pose proof (float_finite_nonneg _ HL0 HLinf) as HLfin.
  apply (factor_pinned_run (FactorScheduler.factor s)); try assumption.
  unfold factor_pinned_inv. rewrite Hb. repeat split; try assumption.
  rewrite eqb_spec. apply SFeqb_refl. now apply finite_nonneg_not_nan.
Qed.

Lemma factor_stays_at_floor_witness :
  forallb (fun r => (r =? 0.003)%float)
    (fst (run FactorScheduler.call
            {| FactorScheduler.base_lr := 0.003%float;
               FactorScheduler.step := 2;
               FactorScheduler.factor := 0.5%float;
               FactorScheduler.stop_factor_lr := 0.003%float;
               FactorScheduler.count := 4 |} [5; 7; 7; 30; 31])) = true.
Proof.
  apply (factor_stays_at_floor
           {| FactorScheduler.base_lr := 0.003%float;
              FactorScheduler.step := 2;
              FactorScheduler.factor := 0.5%float;
              FactorScheduler.stop_factor_lr := 0.003%float;
              FactorScheduler.count := 4 |}); reflexivity.
Defined.

(** ** Construction: which error *)

Lemma check_steps_from (p : Z) (l : list Z) :
  1 <= p ->
  MultiFactorScheduler.check_steps (Some p) l =
  if strictly_increasing (p :: l) then Ok tt
  else Raise (ValueError "Schedule step must be an increasing integer list").
Proof.
  revert p. induction l as [|a l IH]; intros p Hp; [reflexivity|].
  cbn [MultiFactorScheduler.check_steps].
  change (strictly_increasing (p :: a :: l))
    with ((p <? a) && strictly_increasing (a :: l)).
  rewrite (Z.leb_antisym p a).
  destruct (Z.ltb_spec p a) as [Hlt|Hge]; cbn [negb andb]; [|reflexivity].
  destruct (Z.ltb_spec a 1); [lia|]. apply IH. lia.
Qed.

(** X10: the constructor of [MultiFactorScheduler] in closed form, error by
    error: an empty list fails the assertion; the message about steps below 1
    is raised exactly when the first milestone is below 1 (a later one
    cannot be, once the list increases); otherwise a list that is not strictly
    increasing raises the message about order; only then is the factor
    checked. *)
Theorem multi_init_which_error (steps : list Z) (factor : float) :
  MultiFactorScheduler.init steps factor =
  match steps with
  | [] => Raise AssertionError
  | first :: _ =>
      if first <? 1 then
        Raise (ValueError "Schedule step must be greater or equal than 1 round")
      else if negb (strictly_increasing steps) then
        Raise (ValueError "Schedule step must be an increasing integer list")
      else if (1 <? factor)%float then
        Raise (ValueError "Factor must be no more than 1 to make lr reduce")
      else
        Ok {| MultiFactorScheduler.base_lr := 0.01%float;
              MultiFactorScheduler.step := steps;
              MultiFactorScheduler.cur_step_ind := 0;
              MultiFactorScheduler.factor := factor;
              MultiFactorScheduler.count := 0 |}
  end.
Proof.
  destruct steps as [|a l]; [reflexivity|]. unfold MultiFactorScheduler.init.
  replace (negb (1 <=? Z.of_nat (List.length (a :: l)))) with false
    by (symmetry; apply negb_false_iff, Z.leb_le; cbn [List.length]; lia).
  cbn [MultiFactorScheduler.check_steps].
  destruct (Z.ltb_spec a 1) as [Hlt|Hge]; [reflexivity|].
  rewrite (check_steps_from a l Hge).
  now destruct (strictly_increasing (a :: l)).
Qed.

(** ** PolyScheduler: the first call and the division *)

Lemma float_zero_div (d : float) (s : bool) (m : positive) (e : Z) :
  Prim2SF d = S754_finite s m e -> exists s', Prim2SF (0 / d) = S754_zero s'.
Proof.
  intros Hd. exists (xorb false s). now rewrite div_spec, Hd, Prim2SF_zero.
Qed.

Lemma float_one_minus_zero (z : float) (s : bool) :
  Prim2SF z = S754_zero s -> (1 - z)%float = 1%float.
Proof.
  intros Hz. apply Prim2SF_inj. rewrite sub_spec, Hz, Prim2SF_one. reflexivity.
Qed.

Lemma math_pow_exact_unit_base (y : float) : math_pow_exact 1 y = Ok 1%float.
Proof.
  unfold math_pow_exact. change (PrimFloat.Leibniz.eqb 1 1) with true.
  now destruct (y =? 0)%float.
Qed.

(** X11: every [PolyScheduler] starts at [base_lr]: when [total_update] is
    not zero and has a float, the call with [num_update = 0] returns 0.01 for
    every accepted [power]. Of [math.pow] only [pow(1.0, y) = 1.0] is used. *)
Theorem poly_starts_at_base_lr
  (math_pow : float -> float -> result float)
  (total_update : Z) (power : float) (s : PolyScheduler.t) :
  (forall y, math_pow 1%float y = Ok 1%float) ->
  PolyScheduler.init total_update power = Ok s ->
  total_update <> 0 ->
  is_raise (float_of_int total_update) = false ->
  fst (PolyScheduler.call math_pow s 0) = Ok 0.01%float.
Proof.
  intros Hpow Hinit Hne Hconv. unfold PolyScheduler.init in Hinit.
  destruct ((1 <? power) || (power <? 0))%float; [discriminate|].
  injection Hinit as <-. unfold PolyScheduler.call.
  cbn [fst PolyScheduler.total_update PolyScheduler.power PolyScheduler.base_lr].
  change (float_of_int 0) with (Ok 0%float). cbn [bind].
  destruct (float_of_int total_update) as [d|e] eqn:Hd; [|discriminate].
  destruct (float_of_int_finite total_update d Hne Hd) as (sd & md & ed & Hfin).
  cbn [bind]. unfold float_truediv.
  rewrite (float_finite_nonzero d sd md ed Hfin). cbn [bind].
  destruct (float_zero_div d sd md ed Hfin) as [s' Hz].
  rewrite (float_one_minus_zero _ s' Hz), Hpow. reflexivity.
Qed.

Lemma poly_starts_at_base_lr_witness :
  fst (PolyScheduler.call math_pow_exact
         {| PolyScheduler.base_lr := 0.01%float;
            PolyScheduler.power := 0.9%float;
            PolyScheduler.total_update := -2000 |} 0) = Ok 0.01%float.
Proof.
  apply (poly_starts_at_base_lr math_pow_exact (-2000) 0.9%float).
  - exact math_pow_exact_unit_base.
  - reflexivity.
  - discriminate.
  - reflexivity.
Defined.

Lemma float_of_int_raises_overflow (n : Z) (e : exn) :
  float_of_int n = Raise e -> e = OverflowError.
Proof.
  unfold float_of_int.
  destruct (is_infinity (SF2Prim (binary_normalize prec emax n 0 false)));
    congruence.
Qed.

(** X12: the division of a [PolyScheduler] raises exactly for [total_update =
    0]: when [float(num_update)] exists and [math.pow] itself raises no
    [ZeroDivisionError] (it raises [ValueError] and [OverflowError]), a call
    raises [ZeroDivisionError] if and only if [total_update] is zero. *)
Theorem poly_zero_division_iff
  (math_pow : float -> float -> result float)
  (s : PolyScheduler.t) (num_update : Z) :
  (forall x y, math_pow x y <> Raise ZeroDivisionError) ->
  is_raise (float_of_int num_update) = false ->
  (fst (PolyScheduler.call math_pow s num_update) = Raise ZeroDivisionError <->
   PolyScheduler.total_update s = 0).
Proof.
  intros Hpow Hconv. unfold PolyScheduler.call. cbn [fst].
  destruct (float_of_int num_update) as [x|e]; [|discriminate]. cbn [bind].
  split.
  - intros H. destruct (Z.eq_dec (PolyScheduler.total_update s) 0) as [|Hne];
      [assumption|exfalso].
    destruct (float_of_int (PolyScheduler.total_update s)) as [d|e] eqn:Hd.
    + destruct (float_of_int_finite _ d Hne Hd) as (sd & md & ed & Hfin).
      cbn [bind] in H. unfold float_truediv in H.
      rewrite (float_finite_nonzero d sd md ed Hfin) in H. cbn [bind] in H.
      destruct (math_pow (1 - x / d)%float (PolyScheduler.power s)) as [p|e] eqn:Hp.
      * discriminate H.
      * cbn [bind] in H.
        apply (Hpow (1 - x / d)%float (PolyScheduler.power s)). rewrite Hp. exact H.
    + cbn [bind] in H. apply float_of_int_raises_overflow in Hd. congruence.
  - intros ->. reflexivity.
Qed.

Lemma math_pow_exact_no_zero_division (x y : float) :
  math_pow_exact x y <> Raise ZeroDivisionError.
Proof.
  unfold math_pow_exact.
  destruct (y =? 0)%float; [discriminate|].
  destruct (PrimFloat.Leibniz.eqb x 1); [discriminate|].
  destruct (PrimFloat.Leibniz.eqb y 1); [discriminate|].
  destruct (PrimFloat.Leibniz.eqb x 0 && (0 <? y)%float); discriminate.
Qed.

Lemma poly_zero_division_iff_witness :
  fst (PolyScheduler.call math_pow_exact
         {| PolyScheduler.base_lr := 0.01%float;
            PolyScheduler.power := 0.9%float;
            PolyScheduler.total_update := 0 |} 12) = Raise ZeroDivisionError <->
  PolyScheduler.total_update
    {| PolyScheduler.base_lr := 0.01%float;
       PolyScheduler.power := 0.9%float;
       PolyScheduler.total_update := 0 |} = 0.
Proof.
  apply poly_zero_division_iff; [exact math_pow_exact_no_zero_division|reflexivity].
Defined.

(** ** Zero and negative factors *)















